(** * Lead escalation bot (src/bot.py): a shallow embedding

    The bot polls a CRM for overdue leads, sends one chat message per lead
    to the manager, and reacts to the three inline buttons of such a
    message.  The Python code is embedded as functions in a state-and-
    exception monad over a [world] that records every interaction with the
    outside (HTTP posts, chat calls, log lines, sleeps) and holds the one
    module-level variable of the program, [periodic_check_task].

    What the outside answers is not in the source: it is an oracle [env],
    a function of the history so far, over which every theorem quantifies. *)

From stdpp Require Import base relations list strings pretty.
From Stdlib Require Import ZArith Lia Ascii String.

Set Default Proof Using "Type".
Set Warnings "-register-all".

(** ** Python values

    JSON bodies decoded by [response.json()] and everything computed from
    them.  A [str] is kept as the UTF-8 bytes of its text.  A [float] is
    kept as what the program can observe of it: whether it is zero and how
    [str()] shows it.  A [dict] is an association list read at its first
    binding of a key. *)

Inductive pyval : Type :=
| PNone
| PBool (b : bool)
| PInt (n : Z)
| PFloat (zero : bool) (shown : string)
| PStr (s : string)
| PList (l : list pyval)
| PDict (d : list (string * pyval)).

(** ** Exceptions

    [RequestException] stands for the whole class hierarchy of
    [requests.exceptions.RequestException]; [CancelledError] is the only
    one here that does not derive from [Exception]. *)

Inductive req_failure : Type :=
| ConnectionFailure
| HTTPError (status : Z)
| JSONDecodeError.

Inductive exn : Type :=
| KeyError (k : pyval)
| IndexError
| TypeError
| AttributeError
| RequestException (f : req_failure)
| TelegramAPIError (what : string)
| CancelledError.

Definition is_Exception (e : exn) : bool :=
  match e with
  | CancelledError => false
  | _ => true
  end.

Definition is_RequestException (e : exn) : bool :=
  match e with
  | RequestException _ => true
  | _ => false
  end.

Inductive result (A : Type) : Type :=
| Ok (a : A)
| Raise (e : exn).
Arguments Ok {A} a.
Arguments Raise {A} e.

(** ** The fragment of the Python runtime the bot relies on *)

Module Py.

Definition nl : string := String "010"%char EmptyString.

Definition is_empty (s : string) : bool :=
  match s with
  | EmptyString => true
  | String _ _ => false
  end.

(** [bool(v)] *)
Definition truthy (v : pyval) : bool :=
  match v with
  | PNone => false
  | PBool b => b
  | PInt n => negb (n =? 0)%Z
  | PFloat zero _ => negb zero
  | PStr s => negb (is_empty s)
  | PList l => match l with [] => false | _ :: _ => true end
  | PDict d => match d with [] => false | _ :: _ => true end
  end.

Fixpoint dict_get (k : string) (d : list (string * pyval)) : option pyval :=
  match d with
  | [] => None
  | (k', v) :: rest => if String.eqb k k' then Some v else dict_get k rest
  end.

Definition dict_has (k : string) (d : list (string * pyval)) : bool :=
  match dict_get k d with Some _ => true | None => false end.

(** the keys of a dict, each once, in order of first appearance *)
Fixpoint dict_keys (d : list (string * pyval)) : list string :=
  match d with
  | [] => []
  | (k, _) :: rest =>
      k :: List.filter (fun k' => negb (String.eqb k k')) (dict_keys rest)
  end.

(** a byte [10xxxxxx] continues the code point begun before it *)
Definition is_continuation (c : ascii) : bool :=
  (N.land (N_of_ascii c) 192 =? 128)%N.

Definition starts_with_continuation (s : string) : bool :=
  match s with
  | EmptyString => false
  | String c _ => is_continuation c
  end.

(** the characters of a [str], one string per code point *)
Fixpoint str_chars (s : string) : list string :=
  match s with
  | EmptyString => []
  | String c rest =>
      match str_chars rest with
      | h :: t =>
          if starts_with_continuation rest
          then String c h :: t
          else String c EmptyString :: h :: t
      | [] => [String c EmptyString]
      end
  end.

(** [needle in hay] on two [str] *)
Fixpoint str_contains (needle hay : string) : bool :=
  String.prefix needle hay
  || match hay with
     | EmptyString => false
     | String _ rest => str_contains needle rest
     end.

Definition is_str (s : string) (v : pyval) : bool :=
  match v with
  | PStr t => String.eqb s t
  | _ => false
  end.

(** [k in v] for a [str] k *)
Definition contains (k : string) (v : pyval) : result bool :=
  match v with
  | PDict d => Ok (dict_has k d)
  | PList l => Ok (existsb (is_str k) l)
  | PStr s => Ok (str_contains k s)
  | PNone | PBool _ | PInt _ | PFloat _ _ => Raise TypeError
  end.

(** [v[k]] for a [str] k *)
Definition getitem (v : pyval) (k : string) : result pyval :=
  match v with
  | PDict d =>
      match dict_get k d with
      | Some x => Ok x
      | None => Raise (KeyError (PStr k))
      end
  | _ => Raise TypeError
  end.

(** [v[0]] *)
Definition getitem0 (v : pyval) : result pyval :=
  match v with
  | PList l =>
      match l with
      | x :: _ => Ok x
      | [] => Raise IndexError
      end
  | PStr s =>
      match str_chars s with
      | c :: _ => Ok (PStr c)
      | [] => Raise IndexError
      end
  | PDict _ => Raise (KeyError (PInt 0))
  | PNone | PBool _ | PInt _ | PFloat _ _ => Raise TypeError
  end.

(** [v.get(k, default)] *)
Definition get (v : pyval) (k : string) (default : pyval) : result pyval :=
  match v with
  | PDict d =>
      match dict_get k d with
      | Some x => Ok x
      | None => Ok default
      end
  | _ => Raise AttributeError
  end.

(** [len(v)] *)
Definition len (v : pyval) : result Z :=
  match v with
  | PList l => Ok (Z.of_nat (List.length l))
  | PDict d => Ok (Z.of_nat (List.length (dict_keys d)))
  | PStr s => Ok (Z.of_nat (List.length (str_chars s)))
  | PNone | PBool _ | PInt _ | PFloat _ _ => Raise TypeError
  end.

(** the items [for x in v] visits *)
Definition iter (v : pyval) : result (list pyval) :=
  match v with
  | PList l => Ok l
  | PDict d => Ok (List.map PStr (dict_keys d))
  | PStr s => Ok (List.map PStr (str_chars s))
  | PNone | PBool _ | PInt _ | PFloat _ _ => Raise TypeError
  end.

(** [str(v)], as an f-string field shows a value.  How a list or a dict
    prints (the [repr] of its items) is left to [repr_container]. *)
Definition str (repr_container : pyval -> string) (v : pyval) : string :=
  match v with
  | PNone => "None"
  | PBool true => "True"
  | PBool false => "False"
  | PInt n => pretty n
  | PFloat _ shown => shown
  | PStr s => s
  | PList _ | PDict _ => repr_container v
  end.

(** [s.split(sep)] for a one-character separator *)
Fixpoint split (sep : ascii) (s : string) : list string :=
  match s with
  | EmptyString => [EmptyString]
  | String c rest =>
      if Ascii.eqb c sep then EmptyString :: split sep rest
      else match split sep rest with
           | h :: t => String c h :: t
           | [] => [String c EmptyString]
           end
  end.

(** [l[1]] on a list of [str] *)
Definition getitem1 (l : list string) : result string :=
  match l with
  | _ :: x :: _ => Ok x
  | _ => Raise IndexError
  end.

End Py.

(** ** The outside world

    Every call that leaves the process is recorded, with what it was given
    and how it ended. *)

Inductive http_outcome : Type :=
| TransportFailure
| Response (status : Z) (body : option pyval).

Record response : Type := { status_code : Z; body : option pyval }.

Record button : Type := { button_text : string; callback_data : string }.

Inductive tg_call : Type :=
| SendMessage (chat_id : option string) (text : string)
    (reply_markup : option (list (list button))) (parse_mode : option string)
| EditText (message_id : Z) (text : string) (parse_mode : string)
| CallbackAnswer (text : string)
| MessageAnswer (text : string).

Inductive log_level : Type := INFO | ERROR.

Inductive event : Type :=
| EvPost (url : string) (json : pyval) (out : http_outcome)
| EvLog (level : log_level) (msg : string) (shown : option exn)
| EvTelegram (call : tg_call) (err : option exn)
| EvSleep (seconds : Z) (err : option exn).

(** What the outside answers, given everything that happened before, and
    the two library functions whose output reaches the outside unchanged. *)
Record env : Type := {
  http_reply : list event -> string -> pyval -> http_outcome;
  telegram_error : list event -> tg_call -> option exn;
  sleep_error : list event -> Z -> option exn;
  clock : list event -> Z;           (* microseconds since the epoch, UTC *)
  isoformat : Z -> string;           (* [datetime.isoformat] *)
  repr_container : pyval -> string   (* [str()] of a list or dict *)
}.

(** The three values read from the process environment at start-up;
    [os.getenv] gives [None] for a variable that is not set. *)
Record config : Type := {
  TELEGRAM_TOKEN : option string;
  BITRIX_WEBHOOK : option string;
  MANAGER_TELEGRAM_ID : option string
}.

(** An asyncio task wrapping [periodic_check]: [cancel()] only requests the
    cancellation; the task is [done()] once the event loop has thrown
    [CancelledError] into it. *)
Inductive task_state : Type := Running | Cancelling | Done.

Record task : Type := { task_interval : Z; state : task_state }.

Record world : Type := {
  trace : list event;
  periodic_check_task : option nat;   (* the module-level handle *)
  tasks : list task                   (* every task ever created *)
}.

Definition initial_world : world :=
  {| trace := []; periodic_check_task := None; tasks := [] |}.

(** ** The monad: state and exceptions *)

Definition M (A : Type) : Type := world -> result A * world.

Definition ret {A} (a : A) : M A := fun w => (Ok a, w).

Definition raise {A} (e : exn) : M A := fun w => (Raise e, w).

Definition bind {A B} (m : M A) (k : A -> M B) : M B :=
  fun w =>
    match m w with
    | (Ok a, w') => k a w'
    | (Raise e, w') => (Raise e, w')
    end.

(** [try: m except cls as e: h e], where [catches] tells the class *)
Definition try_except {A} (m : M A) (catches : exn -> bool) (h : exn -> M A) : M A :=
  fun w =>
    match m w with
    | (Ok a, w') => (Ok a, w')
    | (Raise e, w') => if catches e then h e w' else (Raise e, w')
    end.

Definition lift {A} (r : result A) : M A := fun w => (r, w).

Notation "'let*' x ':=' m 'in' k" := (bind m (fun x => k))
  (at level 10, x name, m at level 100, k at level 200).
Notation "'do' m 'then' k" := (bind m (fun _ => k))
  (at level 10, m at level 100, k at level 200).

(** [for x in l: body x] *)
Fixpoint for_each {A} (body : A -> M unit) (l : list A) : M unit :=
  match l with
  | [] => ret tt
  | x :: rest => do body x then for_each body rest
  end.

Definition record (ev : event) (w : world) : world :=
  {| trace := trace w ++ [ev];
     periodic_check_task := periodic_check_task w;
     tasks := tasks w |}.

Definition outcome (err : option exn) : result unit :=
  match err with
  | None => Ok tt
  | Some e => Raise e
  end.

Definition fmt_opt (o : option string) : string :=
  match o with
  | Some s => s
  | None => "None"
  end.

Definition two_hours : Z := 2 * 60 * 60 * 1000000.

(** ** The program *)

Section Bot.

Variable E : env.
Variable cfg : config.

(** *** Calls that leave the process *)

(** [requests.post(url, json=params)] *)
Definition requests_post (url : string) (params : pyval) : M response :=
  fun w =>
    let out := http_reply E (trace w) url params in
    let w' := record (EvPost url params out) w in
    match out with
    | TransportFailure => (Raise (RequestException ConnectionFailure), w')
    | Response st b => (Ok {| status_code := st; body := b |}, w')
    end.

(** [response.raise_for_status()]: raises for 4xx and 5xx *)
Definition raise_for_status (r : response) : M unit :=
  if ((400 <=? status_code r) && (status_code r <? 600))%Z
  then raise (RequestException (HTTPError (status_code r)))
  else ret tt.

(** [response.json()]: what it raises on a body that is not JSON is a
    [RequestException] (requests 2.27 and later) *)
Definition response_json (r : response) : M pyval :=
  match body r with
  | Some v => ret v
  | None => raise (RequestException JSONDecodeError)
  end.

(** [datetime.now(timezone.utc)] *)
Definition now : M Z := fun w => (Ok (clock E (trace w)), w).

Definition logging_info (msg : string) : M unit :=
  fun w => (Ok tt, record (EvLog INFO msg None) w).

(** [logging.error(f"{msg}{e}")] *)
Definition logging_error (msg : string) (e : exn) : M unit :=
  fun w => (Ok tt, record (EvLog ERROR msg (Some e)) w).

(** an awaited call on the chat API *)
Definition telegram (c : tg_call) : M unit :=
  fun w =>
    let err := telegram_error E (trace w) c in
    (outcome err, record (EvTelegram c err) w).

(** [await asyncio.sleep(seconds)] *)
Definition asyncio_sleep (seconds : Z) : M unit :=
  fun w =>
    let err := sleep_error E (trace w) seconds in
    (outcome err, record (EvSleep seconds err) w).

(** *** CRM gateway *)

Definition overdue_params (two_hours_ago : string) : pyval :=
  PDict [ ("order", PDict [("DATE_CREATE", PStr "ASC")]);
          ("filter", PDict [ ("STATUS_ID", PStr "NEW");
                             ("<DATE_CREATE", PStr two_hours_ago) ]);
          ("select", PList [PStr "ID"; PStr "TITLE"; PStr "PHONE"]) ].

Definition get_overdue_leads : M pyval :=
  let method := "crm.lead.list" in
  let url := fmt_opt (BITRIX_WEBHOOK cfg) +:+ method in
  let* t := now in
  let two_hours_ago := isoformat E (t - two_hours) in
  let params := overdue_params two_hours_ago in
  try_except
    (let* response := requests_post url params in
     do raise_for_status response then
     let* data := response_json response in
     let* has_result := lift (Py.contains "result" data) in
     let* nonempty :=
       (if has_result
        then let* r := lift (Py.getitem data "result") in ret (Py.truthy r)
        else ret false) in
     if nonempty then
       let* leads := lift (Py.getitem data "result") in
       let* n := lift (Py.len leads) in
       do logging_info ("Найдено " +:+ pretty n +:+ " просроченных лидов.") then
       ret leads
     else
       do logging_info "Просроченных лидов не найдено." then
       ret (PList []))
    is_RequestException
    (fun e =>
       do logging_error "Ошибка при запросе к Bitrix24 API: " e then
       ret PNone).

Definition comment_params (lead_id text : string) : pyval :=
  PDict [ ("fields", PDict [ ("ENTITY_ID", PStr lead_id);
                             ("ENTITY_TYPE", PStr "lead");
                             ("COMMENT", PStr text) ]) ].

Definition add_comment_to_lead (lead_id text : string) : M pyval :=
  let method := "crm.timeline.comment.add" in
  let url := fmt_opt (BITRIX_WEBHOOK cfg) +:+ method in
  let params := comment_params lead_id text in
  try_except
    (let* response := requests_post url params in
     do raise_for_status response then
     do logging_info ("Комментарий '" +:+ text +:+ "' добавлен к лиду ID " +:+ lead_id) then
     response_json response)
    is_RequestException
    (fun e =>
       do logging_error
            ("Ошибка при добавлении комментария к лиду ID " +:+ lead_id +:+ ": ") e then
       ret PNone).

Definition task_params (lead_id deadline : string) : pyval :=
  PDict [ ("fields", PDict [ ("TITLE", PStr ("Связаться с клиентом по лиду №" +:+ lead_id));
                             ("RESPONSIBLE_ID", PInt 1);
                             ("DEADLINE", PStr deadline);
                             ("UF_CRM_TASK", PList [PStr ("L_" +:+ lead_id)]) ]) ].

Definition create_task_for_lead (lead_id : string) : M pyval :=
  let method := "tasks.task.add" in
  let url := fmt_opt (BITRIX_WEBHOOK cfg) +:+ method in
  let* t := now in
  let deadline := isoformat E (t + two_hours) in
  let params := task_params lead_id deadline in
  try_except
    (let* response := requests_post url params in
     do raise_for_status response then
     do logging_info ("Задача создана для лида ID " +:+ lead_id) then
     response_json response)
    is_RequestException
    (fun e =>
       do logging_error
            ("Ошибка при создании задачи для лида ID " +:+ lead_id +:+ ": ") e then
       ret PNone).

(** *** Notification dispatcher *)

Definition get_lead_keyboard (lead_id : pyval) : list (list button) :=
  let id := Py.str (repr_container E) lead_id in
  [ [ {| button_text := "✅ Позвонил"; callback_data := "called:" +:+ id |};
      {| button_text := "💬 Написал"; callback_data := "wrote:" +:+ id |};
      {| button_text := "⏳ Отложить 2 часа"; callback_data := "delay:" +:+ id |} ] ].

Definition lead_text (lead_id title phone : pyval) : string :=
  let show := Py.str (repr_container E) in
  "**Просроченный лид!**" +:+ Py.nl +:+ Py.nl
  +:+ "**ID:** `" +:+ show lead_id +:+ "`" +:+ Py.nl
  +:+ "**Название:** " +:+ show title +:+ Py.nl
  +:+ "**Телефон:** `" +:+ show phone +:+ Py.nl +:+ "`".

Definition phone_sentinel : string := "не указан".

(** [lead.get('PHONE', [{}])[0].get('VALUE', 'не указан')] *)
Definition lead_phone (lead : pyval) : result pyval :=
  match Py.get lead "PHONE" (PList [PDict []]) with
  | Raise e => Raise e
  | Ok phones =>
      match Py.getitem0 phones with
      | Raise e => Raise e
      | Ok first => Py.get first "VALUE" (PStr phone_sentinel)
      end
  end.

(** the text of one lead's message: the part of the loop body before the send *)
Definition render_lead (lead : pyval) : result (pyval * string) :=
  match Py.getitem lead "ID" with
  | Raise e => Raise e
  | Ok lead_id =>
      match Py.getitem lead "TITLE" with
      | Raise e => Raise e
      | Ok title =>
          match lead_phone lead with
          | Raise e => Raise e
          | Ok phone => Ok (lead_id, lead_text lead_id title phone)
          end
      end
  end.

Definition lead_message (lead_id : pyval) (text : string) : tg_call :=
  SendMessage (MANAGER_TELEGRAM_ID cfg) text
              (Some (get_lead_keyboard lead_id)) (Some "Markdown").

(** the body of [for lead in leads] *)
Definition notify_lead (lead : pyval) : M unit :=
  let* rendered := lift (render_lead lead) in
  telegram (lead_message (fst rendered) (snd rendered)).

Definition crm_unreachable : tg_call :=
  SendMessage (MANAGER_TELEGRAM_ID cfg)
              "Не удалось подключиться к Bitrix24. Проверьте настройки или API."
              None None.

Definition send_leads_to_manager : M unit :=
  let* leads := get_overdue_leads in
  match leads with
  | PNone => telegram crm_unreachable
  | _ =>
      if negb (Py.truthy leads) then ret tt
      else
        let* items := lift (Py.iter leads) in
        for_each notify_lead items
  end.

(** *** Action handlers *)

(** what a handler reads of the [CallbackQuery] it is given *)
Record CallbackQuery : Type := {
  data : string;           (* [callback.data] *)
  message_id : Z;          (* identifies [callback.message] *)
  message_text : string    (* [callback.message.text] *)
}.

Definition called_comment : string := "Менеджер позвонил клиенту.".
Definition wrote_comment : string := "Менеджер написал клиенту.".

Definition called_label : string :=
  Py.nl +:+ Py.nl +:+ "*Статус: ✅ Обработан (звонок)*".
Definition wrote_label : string :=
  Py.nl +:+ Py.nl +:+ "*Статус: 💬 Обработан (написал)*".
Definition delay_label : string :=
  Py.nl +:+ Py.nl +:+ "*Статус: ⏳ Задача на перезвон создана*".

(** [callback.data.split(':')[1]] *)
Definition callback_lead_id (callback : CallbackQuery) : result string :=
  Py.getitem1 (Py.split ":" (data callback)).

Definition process_callback_called (callback : CallbackQuery) : M unit :=
  let* lead_id := lift (callback_lead_id callback) in
  let* _ := add_comment_to_lead lead_id called_comment in
  do telegram (EditText (message_id callback)
                        (message_text callback +:+ called_label) "Markdown") then
  telegram (CallbackAnswer ("Отметили звонок по лиду " +:+ lead_id)).

Definition process_callback_wrote (callback : CallbackQuery) : M unit :=
  let* lead_id := lift (callback_lead_id callback) in
  let* _ := add_comment_to_lead lead_id wrote_comment in
  do telegram (EditText (message_id callback)
                        (message_text callback +:+ wrote_label) "Markdown") then
  telegram (CallbackAnswer ("Отметили сообщение по лиду " +:+ lead_id)).

Definition process_callback_delay (callback : CallbackQuery) : M unit :=
  let* lead_id := lift (callback_lead_id callback) in
  let* _ := create_task_for_lead lead_id in
  do telegram (EditText (message_id callback)
                        (message_text callback +:+ delay_label) "Markdown") then
  telegram (CallbackAnswer ("Создана задача для лида " +:+ lead_id)).

(** the three [@dp.callback_query(F.data.startswith(...))] registrations:
    the first handler whose filter accepts the query runs, and a query
    none accepts is dropped *)
Definition dispatch_callback (callback : CallbackQuery) : M unit :=
  if String.prefix "called:" (data callback) then process_callback_called callback
  else if String.prefix "wrote:" (data callback) then process_callback_wrote callback
  else if String.prefix "delay:" (data callback) then process_callback_delay callback
  else ret tt.

(** *** Escalation scheduler *)

(** [while True: try: await send_leads_to_manager() except Exception ...;
    await asyncio.sleep(interval_seconds)], unrolled [rounds] times: the
    result [Ok tt] says the loop is still going after that many rounds,
    [Raise e] that [e] left the loop and ended the task. *)
Fixpoint periodic_check (interval_seconds : Z) (rounds : nat) : M unit :=
  match rounds with
  | O => ret tt
  | S rounds' =>
      do try_except send_leads_to_manager is_Exception
           (fun e => logging_error "Ошибка в ходе периодической проверки: " e) then
      do asyncio_sleep interval_seconds then
      periodic_check interval_seconds rounds'
  end.

Definition task_done (w : world) (t : nat) : bool :=
  match tasks w !! t with
  | Some {| state := Done |} => true
  | _ => false
  end.

(** [asyncio.create_task(periodic_check(interval))] *)
Definition create_task (interval : Z) : M nat :=
  fun w =>
    (Ok (List.length (tasks w)),
     {| trace := trace w;
        periodic_check_task := periodic_check_task w;
        tasks := tasks w ++ [{| task_interval := interval; state := Running |}] |}).

Definition request_cancel (k : task) : task :=
  match state k with
  | Running => {| task_interval := task_interval k; state := Cancelling |}
  | Cancelling | Done => k
  end.

(** [task.cancel()] *)
Definition task_cancel (t : nat) : M unit :=
  fun w =>
    (Ok tt,
     {| trace := trace w;
        periodic_check_task := periodic_check_task w;
        tasks := alter request_cancel t (tasks w) |}).

(** [periodic_check_task = h] *)
Definition set_handle (h : option nat) : M unit :=
  fun w =>
    (Ok tt,
     {| trace := trace w; periodic_check_task := h; tasks := tasks w |}).

Definition already_on : string := "Периодическая проверка уже включена.".
Definition already_off : string := "Периодическая проверка уже выключена.".
Definition switched_on : string :=
  "Включил периодическую проверку лидов." +:+ Py.nl
  +:+ "Используй /turn_off_periodic_check чтобы выключить периодическую проверку лидов"
  +:+ Py.nl.
Definition switched_off : string :=
  "Выключил периодическую проверку лидов." +:+ Py.nl
  +:+ "Используй /turn_on_periodic_check чтобы включить периодическую проверку лидов"
  +:+ Py.nl.

(** [periodic_check_task and not periodic_check_task.done()] *)
Definition handle_live (w : world) : bool :=
  match periodic_check_task w with
  | Some t => negb (task_done w t)
  | None => false
  end.

Definition turn_on_periodic_check : M unit :=
  fun w =>
    if handle_live w then telegram (MessageAnswer already_on) w
    else
      (let* t := create_task 10 in
       do set_handle (Some t) then
       telegram (MessageAnswer switched_on)) w.

Definition turn_off_periodic_check : M unit :=
  fun w =>
    match periodic_check_task w with
    | Some t =>
        if task_done w t then telegram (MessageAnswer already_off) w
        else
          (do task_cancel t then
           do set_handle None then
           telegram (MessageAnswer switched_off)) w
    | None => telegram (MessageAnswer already_off) w
    end.

Definition manual_check : M unit :=
  do telegram (MessageAnswer "Начинаю проверку лидов...") then
  send_leads_to_manager.

End Bot.

(** ** Reading a trace *)

Definition post_of (ev : event) : option (string * pyval) :=
  match ev with
  | EvPost url params _ => Some (url, params)
  | _ => None
  end.

Definition call_of (ev : event) : option tg_call :=
  match ev with
  | EvTelegram c _ => Some c
  | _ => None
  end.

Definition sleep_of (ev : event) : option Z :=
  match ev with
  | EvSleep s _ => Some s
  | _ => None
  end.

(** the HTTP requests made, the chat calls made and the sleeps taken, oldest first *)
Definition posts (tr : list event) : list (string * pyval) := omap post_of tr.
Definition telegram_calls (tr : list event) : list tg_call := omap call_of tr.
Definition sleeps (tr : list event) : list Z := omap sleep_of tr.

(** the chat calls that went through *)
Definition delivered_of (ev : event) : option tg_call :=
  match ev with
  | EvTelegram c None => Some c
  | _ => None
  end.
Definition delivered (tr : list event) : list tg_call := omap delivered_of tr.

Definition status_raises (st : Z) : bool := ((400 <=? st) && (st <? 600))%Z.

(** the outcomes of the HTTP call that the three gateway functions turn
    into their error value: no response, a 4xx or 5xx status, or a body
    that is not JSON *)
Definition gateway_error (out : http_outcome) : bool :=
  match out with
  | TransportFailure => true
  | Response st b =>
      status_raises st || match b with None => true | Some _ => false end
  end.

(** a decoded body in which ['result' in data and data['result']] is false *)
Definition no_result (data : pyval) : bool :=
  match Py.contains "result" data with
  | Ok true =>
      match Py.getitem data "result" with
      | Ok r => negb (Py.truthy r)
      | Raise _ => false
      end
  | Ok false => true
  | Raise _ => false
  end.

Definition lead_list_url (cfg : config) : string :=
  fmt_opt (BITRIX_WEBHOOK cfg) +:+ "crm.lead.list".
Definition comment_add_url (cfg : config) : string :=
  fmt_opt (BITRIX_WEBHOOK cfg) +:+ "crm.timeline.comment.add".
Definition task_add_url (cfg : config) : string :=
  fmt_opt (BITRIX_WEBHOOK cfg) +:+ "tasks.task.add".

(** the request [get_overdue_leads] sends from world [w] *)
Definition overdue_request (E : env) (w : world) : pyval :=
  overdue_params (isoformat E (clock E (trace w) - two_hours)).

(** ** Shapes of traces *)

Definition is_log (ev : event) : Prop :=
  match ev with
  | EvLog _ _ _ => True
  | _ => False
  end.

Definition is_log_or_telegram (ev : event) : Prop :=
  match ev with
  | EvLog _ _ _ | EvTelegram _ _ => True
  | _ => False
  end.

(** [m] only appends events that satisfy [Q] to the trace, and leaves the
    scheduler's handle and tasks alone *)
Definition emits_only {A} (Q : event -> Prop) (m : M A) : Prop :=
  forall w, exists d,
    trace (snd (m w)) = trace w ++ d /\ Forall Q d
    /\ periodic_check_task (snd (m w)) = periodic_check_task w
    /\ tasks (snd (m w)) = tasks w.

(** [m] raises only exceptions that satisfy [P] *)
Definition raises_only {A} (P : exn -> Prop) (m : M A) : Prop :=
  forall w e w', m w = (Raise e, w') -> P e.

(** the [if]/[else] of [get_overdue_leads] on the decoded body *)
Definition select_leads (data : pyval) : M pyval :=
  let* has_result := lift (Py.contains "result" data) in
  let* nonempty :=
    (if has_result
     then let* r := lift (Py.getitem data "result") in ret (Py.truthy r)
     else ret false) in
  if nonempty then
    let* leads := lift (Py.getitem data "result") in
    let* n := lift (Py.len leads) in
    do logging_info ("Найдено " +:+ pretty n +:+ " просроченных лидов.") then
    ret leads
  else
    do logging_info "Просроченных лидов не найдено." then
    ret (PList []).

Definition fetch_failed (e : exn) : event :=
  EvLog ERROR "Ошибка при запросе к Bitrix24 API: " (Some e).

(** the [try]/[except] that [add_comment_to_lead] and [create_task_for_lead]
    share, with its request and its two log lines as arguments *)
Definition gateway_call (E : env) (url : string) (params : pyval)
    (done_msg failed_msg : string) : M pyval :=
  try_except
    (let* response := requests_post E url params in
     do raise_for_status response then
     do logging_info done_msg then
     response_json response)
    is_RequestException
    (fun e => do logging_error failed_msg e then ret PNone).

(** what [gateway_call] leaves in the world for each outcome of its request *)
Definition gateway_result (done_msg failed_msg : string) (out : http_outcome)
    (w1 : world) : result pyval * world :=
  match out with
  | TransportFailure =>
      (Ok PNone,
       record (EvLog ERROR failed_msg (Some (RequestException ConnectionFailure))) w1)
  | Response st b =>
      if status_raises st
      then (Ok PNone,
            record (EvLog ERROR failed_msg (Some (RequestException (HTTPError st)))) w1)
      else match b with
           | None =>
               (Ok PNone,
                record (EvLog ERROR failed_msg (Some (RequestException JSONDecodeError)))
                       (record (EvLog INFO done_msg None) w1))
           | Some v => (Ok v, record (EvLog INFO done_msg None) w1)
           end
  end.

Definition comment_done (lead_id text : string) : string :=
  "Комментарий '" +:+ text +:+ "' добавлен к лиду ID " +:+ lead_id.
Definition comment_failed (lead_id : string) : string :=
  "Ошибка при добавлении комментария к лиду ID " +:+ lead_id +:+ ": ".
Definition task_done_msg (lead_id : string) : string :=
  "Задача создана для лида ID " +:+ lead_id.
Definition task_failed (lead_id : string) : string :=
  "Ошибка при создании задачи для лида ID " +:+ lead_id +:+ ": ".

(** the request [create_task_for_lead] sends from world [w] *)
Definition task_request (E : env) (lead_id : string) (w : world) : pyval :=
  task_params lead_id (isoformat E (clock E (trace w) + two_hours)).

(** The spec's reading of a response, for comparison with the code's
    (sections 6 and 7 of the spec: a [GatewayError] is a transport error, a
    non-2xx status, an unparseable body, or an error payload from the CRM).
    An error payload is an object with an [error] member. *)
Definition error_payload (data : pyval) : bool :=
  match data with
  | PDict d => Py.dict_has "error" d
  | _ => false
  end.

Definition spec_GatewayError (out : http_outcome) : bool :=
  match out with
  | TransportFailure => true
  | Response st b =>
      negb ((200 <=? st) && (st <? 300))%Z
      || match b with
         | None => true
         | Some data => error_payload data
         end
  end.

(** ** Messages of a cycle *)

(** the message the loop body sends for a lead, when the lead renders *)
Definition message_of (E : env) (cfg : config) (lead : pyval) : option tg_call :=
  match render_lead E lead with
  | Ok rendered => Some (lead_message E cfg (fst rendered) (snd rendered))
  | Raise _ => None
  end.

Definition renders (E : env) (lead : pyval) : bool :=
  match render_lead E lead with
  | Ok _ => true
  | Raise _ => false
  end.

(** ** Concrete inputs *)

Definition demo_cfg : config :=
  {| TELEGRAM_TOKEN := Some "123:abc";
     BITRIX_WEBHOOK := Some "https://example.bitrix24.ru/rest/1/key/";
     MANAGER_TELEGRAM_ID := Some "777" |}.

Definition lead_42 : pyval :=
  PDict [("ID", PStr "42"); ("TITLE", PStr "Acme Corp")].

Definition lead_43 : pyval :=
  PDict [ ("ID", PStr "43"); ("TITLE", PStr "Bolt Ltd");
          ("PHONE", PList [PDict [("ID", PStr "9"); ("VALUE", PStr "+7 700 000 00 00")]]) ].

Definition lead_no_phones : pyval :=
  PDict [("ID", PStr "44"); ("TITLE", PStr "Cart LLC"); ("PHONE", PList [])].

(** an outside that answers every request with [out], fails the chat calls
    [fails] picks, never interrupts a sleep, and shows the clock as a
    number of microseconds *)
Definition demo_env (out : http_outcome) (fails : list event -> tg_call -> option exn) : env :=
  {| http_reply := fun _ _ _ => out;
     telegram_error := fails;
     sleep_error := fun _ _ => None;
     clock := fun tr => (1700000000000000 + Z.of_nat (List.length tr))%Z;
     isoformat := fun t => pretty t;
     repr_container := fun _ => "[...]" |}.

Definition never_fails : list event -> tg_call -> option exn := fun _ _ => None.

(** the first chat call fails, every later one goes through *)
Definition first_fails : list event -> tg_call -> option exn :=
  fun tr _ =>
    match telegram_calls tr with
    | [] => Some (TelegramAPIError "Bad Request: can't parse entities")
    | _ :: _ => None
    end.

Definition found (leads : list pyval) : http_outcome :=
  Response 200 (Some (PDict [("result", PList leads); ("total", PInt (Z.of_nat (List.length leads)))])).

Definition error_body : pyval :=
  PDict [ ("error", PStr "INVALID_CREDENTIALS");
          ("error_description", PStr "Invalid request credentials") ].

(** ** The three actions, side by side *)

Inductive action : Type := Called | Wrote | Delay.

Definition handler (E : env) (cfg : config) (a : action) : CallbackQuery -> M unit :=
  match a with
  | Called => process_callback_called E cfg
  | Wrote => process_callback_wrote E cfg
  | Delay => process_callback_delay E cfg
  end.

(** the filter under which the action's handler is registered *)
Definition filter_prefix (a : action) : string :=
  match a with
  | Called => "called:"
  | Wrote => "wrote:"
  | Delay => "delay:"
  end.

(** the gateway function the action's handler calls *)
Definition gateway (E : env) (cfg : config) (a : action) (lead_id : string) : M pyval :=
  match a with
  | Called => add_comment_to_lead E cfg lead_id called_comment
  | Wrote => add_comment_to_lead E cfg lead_id wrote_comment
  | Delay => create_task_for_lead E cfg lead_id
  end.

(** the request that gateway function sends from world [w] *)
Definition gateway_request (E : env) (cfg : config) (a : action) (lead_id : string)
    (w : world) : string * pyval :=
  match a with
  | Called => (comment_add_url cfg, comment_params lead_id called_comment)
  | Wrote => (comment_add_url cfg, comment_params lead_id wrote_comment)
  | Delay => (task_add_url cfg, task_request E lead_id w)
  end.

Definition label_of (a : action) : string :=
  match a with
  | Called => called_label
  | Wrote => wrote_label
  | Delay => delay_label
  end.

(** the handler's [edit_text] call *)
Definition rewrite_of (a : action) (callback : CallbackQuery) : tg_call :=
  EditText (message_id callback) (message_text callback +:+ label_of a) "Markdown".

(** the handler's [callback.answer] call *)
Definition acknowledgment (a : action) (lead_id : string) : tg_call :=
  match a with
  | Called => CallbackAnswer ("Отметили звонок по лиду " +:+ lead_id)
  | Wrote => CallbackAnswer ("Отметили сообщение по лиду " +:+ lead_id)
  | Delay => CallbackAnswer ("Создана задача для лида " +:+ lead_id)
  end.

(** what every handler does after its gateway call *)
Definition rewrite_and_acknowledge (E : env) (a : action) (callback : CallbackQuery)
    (lead_id : string) : M unit :=
  do telegram E (rewrite_of a callback) then
  telegram E (acknowledgment a lead_id).

(** the same query on the message as the handler of [a] has rewritten it *)
Definition tapped_again (a : action) (callback : CallbackQuery) : CallbackQuery :=
  {| data := data callback;
     message_id := message_id callback;
     message_text := message_text callback +:+ label_of a |}.

Definition tap_delay_42 : CallbackQuery :=
  {| data := "delay:42"; message_id := 1001; message_text := "lead 42" |}.

Definition tap_called_42 : CallbackQuery :=
  {| data := "called:42"; message_id := 1001; message_text := "lead 42" |}.

(** ** Outsides that never cancel *)

(** no chat call is ended by something that is not an [Exception], and no
    sleep is interrupted: nothing cancels the task from outside *)
Definition never_cancelled (E : env) : Prop :=
  (forall h c e, telegram_error E h c = Some e -> is_Exception e = true)
  /\ (forall h s, sleep_error E h s = None).

Definition cycle_failed (e : exn) : event :=
  EvLog ERROR "Ошибка в ходе периодической проверки: " (Some e).

(** the third sleep is interrupted by a cancellation *)
Definition cancel_third_sleep : list event -> Z -> option exn :=
  fun tr _ =>
    match sleeps tr with
    | [_; _] => Some CancelledError
    | _ => None
    end.

(** ** The scheduler as a transition system

    What can happen to the handle and the tasks between two awaits: one of
    the two commands runs; a task comes to its end (the event loop throws
    the requested [CancelledError] into it, or something that is not an
    [Exception] kills it); or some other handler or a round of the loop
    runs, which only adds to the trace. *)

Definition finished (k : task) : task :=
  {| task_interval := task_interval k; state := Done |}.

Inductive sched_step (E : env) : world -> world -> Prop :=
| step_turn_on w :
    sched_step E w (snd (turn_on_periodic_check E w))
| step_turn_off w :
    sched_step E w (snd (turn_off_periodic_check E w))
| step_task_ends w t k :
    tasks w !! t = Some k ->
    sched_step E w {| trace := trace w;
                      periodic_check_task := periodic_check_task w;
                      tasks := <[t := finished k]> (tasks w) |}
| step_elsewhere w evs :
    sched_step E w {| trace := trace w ++ evs;
                      periodic_check_task := periodic_check_task w;
                      tasks := tasks w |}.

Definition reachable (E : env) (w : world) : Prop :=
  rtc (sched_step E) initial_world w.

(** task [t] is a loop that can still run a cycle *)
Definition active (w : world) (t : nat) : Prop :=
  exists k, tasks w !! t = Some k /\ state k = Running.

Definition some_active (w : world) : Prop := exists t, active w t.

(** every active loop is the one the handle names, and the handle never
    names a task whose cancellation was requested *)
Definition handle_inv (w : world) : Prop :=
  (forall t, active w t -> periodic_check_task w = Some t)
  /\ (forall t, periodic_check_task w = Some t ->
                exists k, tasks w !! t = Some k /\ state k <> Cancelling).

(** ** The rest of the command surface *)

Definition welcome_text : string :=
  "Привет! Я бот для уведомлений о лидах из Bitrix24." +:+ Py.nl
  +:+ "Используй /check_leads для ручной проверки." +:+ Py.nl
  +:+ "Используй /turn_on_periodic_check чтобы включить периодическую проверку лидов"
  +:+ Py.nl
  +:+ "Используй /turn_off_periodic_check чтобы выключить периодическую проверку лидов".

Definition send_welcome (E : env) : M unit :=
  telegram E (MessageAnswer welcome_text).

Definition check_started : tg_call := MessageAnswer "Начинаю проверку лидов...".

(** [c in s] for a character [c] *)
Fixpoint occurs (c : ascii) (s : string) : bool :=
  match s with
  | EmptyString => false
  | String c' rest => Ascii.eqb c' c || occurs c rest
  end.

(** the button of an action on the keyboard of a lead *)
Definition button_of (E : env) (a : action) (lead_id : pyval) : option button :=
  match get_lead_keyboard E lead_id with
  | [[called; wrote; delay]] =>
      Some match a with
           | Called => called
           | Wrote => wrote
           | Delay => delay
           end
  | _ => None
  end.

(** the query a tap on a button delivers, on the message with that text *)
Definition tap (b : button) (id : Z) (text : string) : CallbackQuery :=
  {| data := callback_data b; message_id := id; message_text := text |}.

Definition any_event (ev : event) : Prop := True.

(** the chat refuses every call *)
Definition always_fails : list event -> tg_call -> option exn :=
  fun _ _ => Some (TelegramAPIError "Forbidden: bot was blocked by the user").

(** a cancellation reaches the task while it waits on its second chat call *)
Definition cancel_second_call : list event -> tg_call -> option exn :=
  fun tr _ =>
    match telegram_calls tr with
    | [_] => Some CancelledError
    | _ => None
    end.

(** [m] leaves the scheduler's handle and its tasks as they are *)
Definition keeps_handle {A} (m : M A) : Prop :=
  forall w,
    periodic_check_task (snd (m w)) = periodic_check_task w
    /\ tasks (snd (m w)) = tasks w.

(** the world a round of the loop sleeps in: after the cycle, and after the
    log line when the cycle raised *)
Definition before_sleep (E : env) (cfg : config) (w : world) : world :=
  match fst (send_leads_to_manager E cfg w) with
  | Ok _ => snd (send_leads_to_manager E cfg w)
  | Raise e => record (cycle_failed e) (snd (send_leads_to_manager E cfg w))
  end.

(** * Properties *)

(** ** The runtime fragment on small inputs *)

Example str_chars_cyrillic : Py.str_chars "лид7" = ["л"; "и"; "д"; "7"].
Proof. reflexivity. Qed.

Example split_callback_data : Py.split ":" "delay:42" = ["delay"; "42"].
Proof. reflexivity. Qed.

Example split_no_separator : Py.getitem1 (Py.split ":" "delay") = Raise IndexError.
Proof. reflexivity. Qed.

Example dict_keys_once :
  Py.dict_keys [("a", PNone); ("b", PNone); ("a", PInt 1)] = ["a"; "b"].
Proof. reflexivity. Qed.

(** ** The program on the scenarios of the spec *)

(** lead 42, "Acme Corp", no phone: one message with the id, the title,
    the sentinel and the three buttons *)
Example notify_acme :
  telegram_calls
    (trace (snd (send_leads_to_manager (demo_env (found [lead_42]) never_fails)
                   demo_cfg initial_world)))
  = [ SendMessage (Some "777")
        ("**Просроченный лид!**" +:+ Py.nl +:+ Py.nl
         +:+ "**ID:** `42`" +:+ Py.nl
         +:+ "**Название:** Acme Corp" +:+ Py.nl
         +:+ "**Телефон:** `не указан" +:+ Py.nl +:+ "`")
        (Some [ [ {| button_text := "✅ Позвонил"; callback_data := "called:42" |};
                  {| button_text := "💬 Написал"; callback_data := "wrote:42" |};
                  {| button_text := "⏳ Отложить 2 часа"; callback_data := "delay:42" |} ] ])
        (Some "Markdown") ].
Proof. reflexivity. Qed.

(** the transport fails during the fetch: one notice, no lead message *)
Example crm_unreachable_notice :
  telegram_calls
    (trace (snd (send_leads_to_manager (demo_env TransportFailure never_fails)
                   demo_cfg initial_world)))
  = [ SendMessage (Some "777")
        "Не удалось подключиться к Bitrix24. Проверьте настройки или API." None None ].
Proof. reflexivity. Qed.

(** tapping Delay on the message of lead 42 *)
Example delay_acme :
  let E := demo_env (Response 200 (Some (PDict [("result", PInt 7)]))) never_fails in
  let w' := snd (dispatch_callback E demo_cfg tap_delay_42 initial_world) in
  posts (trace w')
  = [ ("https://example.bitrix24.ru/rest/1/key/tasks.task.add",
       PDict [ ("fields",
                PDict [ ("TITLE", PStr "Связаться с клиентом по лиду №42");
                        ("RESPONSIBLE_ID", PInt 1);
                        ("DEADLINE", PStr "1700007200000000");
                        ("UF_CRM_TASK", PList [PStr "L_42"]) ]) ]) ]
  /\ telegram_calls (trace w')
     = [ EditText 1001 ("lead 42" +:+ Py.nl +:+ Py.nl
                        +:+ "*Статус: ⏳ Задача на перезвон создана*") "Markdown";
         CallbackAnswer "Создана задача для лида 42" ].
Proof. split; reflexivity. Qed.

(** a lead whose phone is given *)
Example phone_given :
  lead_phone lead_43 = Ok (PStr "+7 700 000 00 00").
Proof. reflexivity. Qed.

(** a fetched body whose [result] is not a list: [len()] of it raises, and
    nothing catches a [TypeError] *)
Example result_not_a_list :
  fst (get_overdue_leads (demo_env (Response 200 (Some (PDict [("result", PInt 5)])))
                                   never_fails) demo_cfg initial_world)
  = Raise TypeError.
Proof. reflexivity. Qed.

(** ** Basic facts about the monad and the trace *)

Lemma trace_record ev w : trace (record ev w) = trace w ++ [ev].
Proof. reflexivity. Qed.

Lemma posts_app tr1 tr2 : posts (tr1 ++ tr2) = posts tr1 ++ posts tr2.
Proof. apply omap_app. Qed.

Lemma telegram_calls_app tr1 tr2 :
  telegram_calls (tr1 ++ tr2) = telegram_calls tr1 ++ telegram_calls tr2.
Proof. apply omap_app. Qed.

Lemma sleeps_app tr1 tr2 : sleeps (tr1 ++ tr2) = sleeps tr1 ++ sleeps tr2.
Proof. apply omap_app. Qed.

Lemma delivered_app tr1 tr2 : delivered (tr1 ++ tr2) = delivered tr1 ++ delivered tr2.
Proof. apply omap_app. Qed.

Lemma bind_ok {A B} (m : M A) (k : A -> M B) w a w' :
  m w = (Ok a, w') -> bind m k w = k a w'.
Proof. intros H. unfold bind. now rewrite H. Qed.

Lemma bind_raise {A B} (m : M A) (k : A -> M B) w e w' :
  m w = (Raise e, w') -> bind m k w = (Raise e, w').
Proof. intros H. unfold bind. now rewrite H. Qed.

(** ** Composition rules for [emits_only] and [raises_only] *)

Create HintDb bot discriminated.

Lemma emits_only_weaken {A} (Q Q' : event -> Prop) (m : M A) :
  (forall ev, Q ev -> Q' ev) -> emits_only Q m -> emits_only Q' m.
Proof.
  intros HQ Hm w. destruct (Hm w) as (d & Ht & Hd & Hh & Hk).
  exists d. repeat split; try assumption.
  eapply Forall_impl; eauto.
Qed.

Lemma emits_only_ret {A} Q (a : A) : emits_only Q (ret a).
Proof. intros w. exists []. simpl. rewrite app_nil_r. auto. Qed.

Lemma emits_only_raise {A} Q e : emits_only Q (@raise A e).
Proof. intros w. exists []. simpl. rewrite app_nil_r. auto. Qed.

Lemma emits_only_lift {A} Q (r : result A) : emits_only Q (lift r).
Proof. intros w. exists []. simpl. rewrite app_nil_r. auto. Qed.

Lemma emits_only_bind {A B} Q (m : M A) (k : A -> M B) :
  emits_only Q m -> (forall a, emits_only Q (k a)) -> emits_only Q (bind m k).
Proof.
  intros Hm Hk w. destruct (Hm w) as (d & Ht & Hd & Hh & Hs).
  unfold bind. destruct (m w) as [[a | e] w1]; simpl in *.
  - destruct (Hk a w1) as (d' & Ht' & Hd' & Hh' & Hs').
    exists (d ++ d'). rewrite Ht', Ht, Hh', Hs', <- app_assoc.
    repeat split; auto. apply Forall_app; auto.
  - exists d. auto.
Qed.

Lemma emits_only_try {A} Q (m : M A) catches (h : exn -> M A) :
  emits_only Q m -> (forall e, emits_only Q (h e)) -> emits_only Q (try_except m catches h).
Proof.
  intros Hm Hh w. destruct (Hm w) as (d & Ht & Hd & Hp & Hs).
  unfold try_except. destruct (m w) as [[a | e] w1]; simpl in *.
  - exists d. auto.
  - destruct (catches e).
    + destruct (Hh e w1) as (d' & Ht' & Hd' & Hp' & Hs').
      exists (d ++ d'). rewrite Ht', Ht, Hp', Hs', <- app_assoc.
      repeat split; auto. apply Forall_app; auto.
    + exists d. auto.
Qed.

Lemma emits_only_for_each {A} Q (body : A -> M unit) l :
  (forall x, emits_only Q (body x)) -> emits_only Q (for_each body l).
Proof.
  intros Hb. induction l as [| x l IH]; simpl.
  - apply emits_only_ret.
  - apply emits_only_bind; auto.
Qed.

Lemma emits_only_record {A} (Q : event -> Prop) ev (r : result A) :
  Q ev -> emits_only Q (fun w => (r, record ev w)).
Proof. intros H w. exists [ev]. simpl. auto. Qed.

Lemma raises_only_weaken {A} (P P' : exn -> Prop) (m : M A) :
  (forall e, P e -> P' e) -> raises_only P m -> raises_only P' m.
Proof. intros HP Hm w e w' H. eauto. Qed.

Lemma raises_only_ret {A} P (a : A) : raises_only P (ret a).
Proof. intros w e w' H. discriminate. Qed.

Lemma raises_only_bind {A B} P (m : M A) (k : A -> M B) :
  raises_only P m -> (forall a, raises_only P (k a)) -> raises_only P (bind m k).
Proof.
  intros Hm Hk w e w'. unfold bind.
  destruct (m w) as [[a | e0] w1] eqn:Hmw.
  - apply Hk.
  - intros H. inversion H; subst. eapply Hm; eauto.
Qed.

Lemma raises_only_try {A} (P : exn -> Prop) (m : M A) catches (h : exn -> M A) :
  (forall w e w', m w = (Raise e, w') -> catches e = false -> P e) ->
  (forall e, raises_only P (h e)) ->
  raises_only P (try_except m catches h).
Proof.
  intros Hm Hh w e w'. unfold try_except.
  destruct (m w) as [[a | e0] w1] eqn:Hmw; [discriminate |].
  destruct (catches e0) eqn:Hc.
  - apply Hh.
  - intros H. inversion H; subst. eapply Hm; eauto.
Qed.

Lemma raises_only_for_each {A} P (body : A -> M unit) l :
  (forall x, raises_only P (body x)) -> raises_only P (for_each body l).
Proof.
  intros Hb. induction l as [| x l IH]; simpl.
  - apply raises_only_ret.
  - apply raises_only_bind; auto.
Qed.

#[export] Hint Resolve emits_only_ret emits_only_raise emits_only_lift
  emits_only_bind emits_only_try emits_only_for_each emits_only_record
  raises_only_ret raises_only_bind raises_only_for_each : bot.

(** ** CRM gateway *)

Lemma emits_only_logging_info msg : emits_only is_log (logging_info msg).
Proof. apply emits_only_record. exact I. Qed.

Lemma emits_only_logging_error msg e : emits_only is_log (logging_error msg e).
Proof. apply emits_only_record. exact I. Qed.

Lemma emits_only_raise_for_status r : emits_only is_log (raise_for_status r).
Proof. unfold raise_for_status. destruct (_ && _); auto with bot. Qed.

Lemma emits_only_response_json r : emits_only is_log (response_json r).
Proof. unfold response_json. destruct (body r); auto with bot. Qed.

#[export] Hint Resolve emits_only_logging_info emits_only_logging_error
  emits_only_raise_for_status emits_only_response_json : bot.

Lemma emits_only_select_leads data : emits_only is_log (select_leads data).
Proof.
  unfold select_leads.
  apply emits_only_bind; [auto with bot |]. intros has.
  apply emits_only_bind; [destruct has; auto with bot |]. intros [|]; auto 10 with bot.
Qed.

(** [get_overdue_leads], one outcome of the HTTP call at a time *)
Lemma get_overdue_leads_cases E cfg w :
  let url := lead_list_url cfg in
  let params := overdue_request E w in
  let out := http_reply E (trace w) url params in
  let w1 := record (EvPost url params out) w in
  get_overdue_leads E cfg w =
  match out with
  | TransportFailure =>
      (Ok PNone, record (fetch_failed (RequestException ConnectionFailure)) w1)
  | Response st b =>
      if status_raises st
      then (Ok PNone, record (fetch_failed (RequestException (HTTPError st))) w1)
      else match b with
           | None => (Ok PNone, record (fetch_failed (RequestException JSONDecodeError)) w1)
           | Some data =>
               try_except (select_leads data) is_RequestException
                 (fun e => do logging_error "Ошибка при запросе к Bitrix24 API: " e then
                           ret PNone) w1
           end
  end.
Proof.
  cbv zeta.
  unfold get_overdue_leads, lead_list_url, overdue_request, now, requests_post.
  unfold bind at 1. cbn [fst snd]. unfold try_except at 1, bind at 1.
  destruct (http_reply E _ _ _) as [| st b]; [reflexivity |].
  unfold bind at 1, raise_for_status, status_raises. cbn [status_code].
  destruct ((400 <=? st)%Z && (st <? 600)%Z); [reflexivity |].
  unfold ret at 1. unfold bind at 1, response_json. cbn [body].
  destruct b as [data |]; reflexivity.
Qed.

Lemma try_except_uncaught {A} (m : M A) catches h w :
  raises_only (fun e => catches e = false) m -> try_except m catches h w = m w.
Proof.
  intros Hm. unfold try_except.
  destruct (m w) as [[a | e] w'] eqn:Hmw; [reflexivity |].
  now rewrite (Hm _ _ _ Hmw).
Qed.

Lemma select_leads_raises data :
  raises_only (fun e => is_RequestException e = false) (select_leads data).
Proof.
  intros w e w'. unfold select_leads, bind, lift, ret, logging_info.
  destruct data as [| b | n | z s | s | l | d]; cbn [Py.contains Py.getitem];
    try (intros H; inversion H; reflexivity).
  - destruct (Py.str_contains "result" s);
      intros H; inversion H; reflexivity.
  - destruct (existsb (Py.is_str "result") l);
      intros H; inversion H; reflexivity.
  - unfold Py.dict_has. destruct (Py.dict_get "result" d) as [r |].
    + destruct (Py.truthy r); [| discriminate].
      destruct (Py.len r) eqn:Hlen; [discriminate |].
      intros H; inversion H; subst.
      destruct r; cbn in Hlen; inversion Hlen; reflexivity.
    + discriminate.
Qed.

Lemma select_leads_empty data w :
  no_result data = true ->
  select_leads data w
  = (Ok (PList []), record (EvLog INFO "Просроченных лидов не найдено." None) w).
Proof.
  unfold no_result, select_leads, bind, lift, ret, logging_info.
  destruct (Py.contains "result" data) as [[|] | e]; try discriminate.
  - destruct (Py.getitem data "result") as [r | e]; [| discriminate].
    destruct (Py.truthy r); [discriminate | reflexivity].
  - reflexivity.
Qed.

Lemma select_leads_value data w v w' :
  no_result data = false ->
  select_leads data w = (Ok v, w') ->
  Py.truthy v = true /\ Py.getitem data "result" = Ok v.
Proof.
  unfold no_result, select_leads, bind, lift, ret, logging_info.
  destruct (Py.contains "result" data) as [[|] | e]; try discriminate.
  destruct (Py.getitem data "result") as [r | e]; [| discriminate].
  destruct (Py.truthy r) eqn:Hr; [| discriminate].
  intros _. destruct (Py.len r); [| discriminate].
  intros H; inversion H; subst. auto.
Qed.

Lemma get_overdue_leads_decoded E cfg w st data :
  http_reply E (trace w) (lead_list_url cfg) (overdue_request E w)
  = Response st (Some data) ->
  status_raises st = false ->
  get_overdue_leads E cfg w
  = select_leads data
      (record (EvPost (lead_list_url cfg) (overdue_request E w)
                      (Response st (Some data))) w).
Proof.
  intros Hout Hst. pose proof (get_overdue_leads_cases E cfg w) as H.
  cbv zeta in H. rewrite Hout, Hst in H. rewrite H.
  apply try_except_uncaught, select_leads_raises.
Qed.

Lemma gateway_call_cases E url params done_msg failed_msg w :
  let out := http_reply E (trace w) url params in
  gateway_call E url params done_msg failed_msg w
  = gateway_result done_msg failed_msg out (record (EvPost url params out) w).
Proof.
  cbv zeta. unfold gateway_call, gateway_result, requests_post.
  unfold try_except at 1, bind at 1.
  destruct (http_reply E _ _ _) as [| st b]; [reflexivity |].
  unfold bind at 1, raise_for_status, status_raises. cbn [status_code].
  destruct ((400 <=? st)%Z && (st <? 600)%Z); [reflexivity |].
  unfold ret at 1. unfold bind at 1, logging_info at 1, response_json. cbn [body].
  destruct b as [data |]; reflexivity.
Qed.

Lemma add_comment_to_lead_cases E cfg lead_id text w :
  let out := http_reply E (trace w) (comment_add_url cfg) (comment_params lead_id text) in
  add_comment_to_lead E cfg lead_id text w
  = gateway_result (comment_done lead_id text) (comment_failed lead_id) out
      (record (EvPost (comment_add_url cfg) (comment_params lead_id text) out) w).
Proof. apply gateway_call_cases. Qed.

Lemma create_task_for_lead_cases E cfg lead_id w :
  let out := http_reply E (trace w) (task_add_url cfg) (task_request E lead_id w) in
  create_task_for_lead E cfg lead_id w
  = gateway_result (task_done_msg lead_id) (task_failed lead_id) out
      (record (EvPost (task_add_url cfg) (task_request E lead_id w) out) w).
Proof.
  cbv zeta. unfold create_task_for_lead, bind at 1, now. cbn [fst snd].
  apply gateway_call_cases.
Qed.

Lemma logs_silent logs :
  Forall is_log logs ->
  posts logs = [] /\ telegram_calls logs = [] /\ sleeps logs = [] /\ delivered logs = [].
Proof.
  induction 1 as [| ev logs Hev _ IH]; [repeat split |].
  destruct ev; try contradiction. exact IH.
Qed.

Lemma get_overdue_leads_trace E cfg w :
  exists logs,
    trace (snd (get_overdue_leads E cfg w))
    = trace w
      ++ EvPost (lead_list_url cfg) (overdue_request E w)
           (http_reply E (trace w) (lead_list_url cfg) (overdue_request E w))
      :: logs
    /\ Forall is_log logs
    /\ periodic_check_task (snd (get_overdue_leads E cfg w)) = periodic_check_task w
    /\ tasks (snd (get_overdue_leads E cfg w)) = tasks w.
Proof.
  pose proof (get_overdue_leads_cases E cfg w) as H. cbv zeta in H. rewrite H. clear H.
  destruct (http_reply E _ _ _) as [| st b] eqn:Hout.
  - eexists [_]. simpl. rewrite <- app_assoc. repeat split. repeat constructor.
  - destruct (status_raises st).
    + eexists [_]. simpl. rewrite <- app_assoc. repeat split. repeat constructor.
    + destruct b as [data |].
      * rewrite try_except_uncaught by apply select_leads_raises.
        destruct (emits_only_select_leads data
                    (record (EvPost (lead_list_url cfg) (overdue_request E w)
                                    (Response st (Some data))) w))
          as (d & Ht & Hd & Hp & Hk).
        exists d. rewrite Ht, Hp, Hk. simpl. rewrite <- app_assoc. auto.
      * eexists [_]. simpl. rewrite <- app_assoc. repeat split. repeat constructor.
Qed.

Lemma gateway_result_trace done_msg failed_msg out w1 :
  exists logs,
    trace (snd (gateway_result done_msg failed_msg out w1)) = trace w1 ++ logs
    /\ Forall is_log logs
    /\ periodic_check_task (snd (gateway_result done_msg failed_msg out w1))
       = periodic_check_task w1
    /\ tasks (snd (gateway_result done_msg failed_msg out w1)) = tasks w1.
Proof.
  unfold gateway_result. destruct out as [| st [v |]]; [| destruct (status_raises st) ..].
  all: first
    [ solve [eexists [_]; simpl; repeat split; repeat constructor]
    | eexists [_; _]; simpl; rewrite <- app_assoc; repeat split; repeat constructor ].
Qed.

Lemma gateway_result_ok done_msg failed_msg out w1 :
  exists v, fst (gateway_result done_msg failed_msg out w1) = Ok v.
Proof.
  unfold gateway_result. destruct out as [| st [v |]]; [| destruct (status_raises st) ..];
    eexists; reflexivity.
Qed.

Lemma gateway_result_error done_msg failed_msg out w1 :
  gateway_error out = true ->
  fst (gateway_result done_msg failed_msg out w1) = Ok PNone.
Proof.
  unfold gateway_error, gateway_result.
  destruct out as [| st [v |]]; [| destruct (status_raises st) ..];
    try reflexivity; discriminate.
Qed.

(** C8: the one request of [get_overdue_leads] goes to [crm.lead.list] and
    carries exactly: the filter [STATUS_ID = "NEW"] and [DATE_CREATE]
    strictly before the time of the call minus two hours, the order
    [DATE_CREATE] ascending, and the projection [ID], [TITLE], [PHONE];
    nothing else is requested. *)
Theorem overdue_request_exact (E : env) (cfg : config) (w : world) :
  posts (trace (snd (get_overdue_leads E cfg w)))
  = posts (trace w)
    ++ [ (fmt_opt (BITRIX_WEBHOOK cfg) +:+ "crm.lead.list",
          PDict [ ("order", PDict [("DATE_CREATE", PStr "ASC")]);
                  ("filter",
                   PDict [ ("STATUS_ID", PStr "NEW");
                           ("<DATE_CREATE",
                            PStr (isoformat E (clock E (trace w) - 7200 * 1000000))) ]);
                  ("select", PList [PStr "ID"; PStr "TITLE"; PStr "PHONE"]) ]) ].
Proof.
  destruct (get_overdue_leads_trace E cfg w) as (logs & Ht & Hlogs & _).
  rewrite Ht, posts_app. simpl.
  destruct (logs_silent logs Hlogs) as (-> & _). reflexivity.
Qed.

(** C2, as amended: [get_overdue_leads] returns [None] exactly when the
    request met a transport failure, a 4xx or 5xx status, or a body that is
    not JSON; it returns the empty list exactly when the status passed and
    the decoded body has no truthy [result], which includes an error
    payload delivered under a passing status; the two values differ. *)
Theorem overdue_leads_none_or_empty (E : env) (cfg : config) (w : world) :
  let out := http_reply E (trace w) (lead_list_url cfg) (overdue_request E w) in
  (fst (get_overdue_leads E cfg w) = Ok PNone <-> gateway_error out = true)
  /\ (fst (get_overdue_leads E cfg w) = Ok (PList [])
      <-> exists st data,
            out = Response st (Some data)
            /\ status_raises st = false /\ no_result data = true)
  /\ PNone <> PList [].
Proof.
  cbv zeta. split; [| split; [| discriminate]].
  - destruct (http_reply E _ _ _) as [| st b] eqn:Hout.
    + pose proof (get_overdue_leads_cases E cfg w) as H. cbv zeta in H.
      rewrite Hout in H. rewrite H. simpl. tauto.
    + destruct (status_raises st) eqn:Hst.
      * pose proof (get_overdue_leads_cases E cfg w) as H. cbv zeta in H.
        rewrite Hout, Hst in H. rewrite H. simpl. rewrite Hst. tauto.
      * destruct b as [data |].
        -- rewrite (get_overdue_leads_decoded E cfg w st data Hout Hst).
           simpl. rewrite Hst. simpl. split; [| discriminate].
           destruct (no_result data) eqn:Hnr.
           ++ rewrite select_leads_empty by assumption. discriminate.
           ++ destruct (select_leads data _) as [[v | e] w'] eqn:Hsel; [| discriminate].
              destruct (select_leads_value _ _ _ _ Hnr Hsel) as [Hv _].
              simpl. intros H; inversion H; subst. discriminate.
        -- pose proof (get_overdue_leads_cases E cfg w) as H. cbv zeta in H.
           rewrite Hout, Hst in H. rewrite H. simpl. rewrite Hst. tauto.
  - destruct (http_reply E _ _ _) as [| st b] eqn:Hout.
    + pose proof (get_overdue_leads_cases E cfg w) as H. cbv zeta in H.
      rewrite Hout in H. rewrite H. simpl.
      split; [discriminate | intros (? & ? & ? & _); discriminate].
    + destruct (status_raises st) eqn:Hst.
      * pose proof (get_overdue_leads_cases E cfg w) as H. cbv zeta in H.
        rewrite Hout, Hst in H. rewrite H. simpl.
        split; [discriminate |]. intros (st' & data & Heq & Hst' & _).
        inversion Heq; subst. congruence.
      * destruct b as [data |].
        -- rewrite (get_overdue_leads_decoded E cfg w st data Hout Hst).
           destruct (no_result data) eqn:Hnr.
           ++ rewrite select_leads_empty by assumption. simpl.
              split; [| reflexivity]. intros _. exists st, data. auto.
           ++ split.
              ** destruct (select_leads data _) as [[v | e] w'] eqn:Hsel; [| discriminate].
                 destruct (select_leads_value _ _ _ _ Hnr Hsel) as [Hv _].
                 simpl. intros H; inversion H; subst. discriminate.
              ** intros (st' & data' & Heq & _ & Hnr'). inversion Heq; subst. congruence.
        -- pose proof (get_overdue_leads_cases E cfg w) as H. cbv zeta in H.
           rewrite Hout, Hst in H. rewrite H. simpl.
           split; [discriminate | intros (? & ? & ? & _); discriminate].
Qed.

(** C2, as the claim has it, fails: a body that is an error payload of the
    CRM, delivered under status 200, is a gateway error in the spec's
    terms, and [get_overdue_leads] answers it with the empty list. *)
Lemma error_payload_read_as_no_leads :
  let out := Response 200 (Some error_body) in
  let E := demo_env out never_fails in
  http_reply E (trace initial_world) (lead_list_url demo_cfg)
             (overdue_request E initial_world) = out
  /\ spec_GatewayError out = true
  /\ fst (get_overdue_leads E demo_cfg initial_world) = Ok (PList [])
  /\ fst (get_overdue_leads E demo_cfg initial_world) <> Ok PNone.
Proof. repeat split; try reflexivity. vm_compute. discriminate. Qed.

(** ** Notification dispatcher *)

Lemma for_each_app_ok {A} (body : A -> M unit) pre l w w1 :
  for_each body pre w = (Ok tt, w1) ->
  for_each body (pre ++ l) w = for_each body l w1.
Proof.
  revert w. induction pre as [| x pre IH]; intros w; simpl.
  - unfold ret. intros H; inversion H; reflexivity.
  - unfold bind. destruct (body x w) as [[[] | e] w0]; [apply IH | discriminate].
Qed.

(** the loop has no handler of its own: what one item raises leaves the loop *)
Lemma for_each_abort {A} (body : A -> M unit) pre x rest w w1 e w2 :
  for_each body pre w = (Ok tt, w1) ->
  body x w1 = (Raise e, w2) ->
  for_each body (pre ++ x :: rest) w = (Raise e, w2).
Proof.
  intros Hpre Hx. rewrite (for_each_app_ok _ _ _ _ _ Hpre). simpl.
  now apply bind_raise.
Qed.

Lemma send_leads_to_manager_fetched E cfg w v w1 :
  get_overdue_leads E cfg w = (Ok v, w1) ->
  send_leads_to_manager E cfg w
  = match v with
    | PNone => telegram E (crm_unreachable cfg) w1
    | _ =>
        if negb (Py.truthy v) then (Ok tt, w1)
        else (let* items := lift (Py.iter v) in for_each (notify_lead E cfg) items) w1
    end.
Proof.
  intros H. unfold send_leads_to_manager. rewrite (bind_ok _ _ _ _ _ H).
  destruct v; try reflexivity; destruct (negb _); reflexivity.
Qed.

Lemma send_leads_to_manager_list E cfg w lead leads w1 :
  get_overdue_leads E cfg w = (Ok (PList (lead :: leads)), w1) ->
  send_leads_to_manager E cfg w = for_each (notify_lead E cfg) (lead :: leads) w1.
Proof. intros H. rewrite (send_leads_to_manager_fetched _ _ _ _ _ H). reflexivity. Qed.

Lemma notify_lead_rendered E cfg lead rendered w :
  render_lead E lead = Ok rendered ->
  notify_lead E cfg lead w
  = telegram E (lead_message E cfg (fst rendered) (snd rendered)) w.
Proof. intros H. unfold notify_lead, bind, lift. now rewrite H. Qed.

Lemma notify_lead_unrendered E cfg lead e w :
  render_lead E lead = Raise e -> notify_lead E cfg lead w = (Raise e, w).
Proof. intros H. unfold notify_lead, bind, lift. now rewrite H. Qed.

Lemma for_each_notify_delivers E cfg leads w :
  (forall h c, telegram_error E h c = None) ->
  forallb (renders E) leads = true ->
  exists w',
    for_each (notify_lead E cfg) leads w = (Ok tt, w')
    /\ trace w' = trace w
                  ++ List.map (fun c => EvTelegram c None) (omap (message_of E cfg) leads)
    /\ List.length (omap (message_of E cfg) leads) = List.length leads.
Proof.
  intros Htg. revert w. induction leads as [| lead leads IH]; intros w Hr.
  - exists w. simpl. rewrite app_nil_r. auto.
  - simpl in Hr. apply andb_prop in Hr as [Hlead Hrest].
    unfold renders in Hlead.
    destruct (render_lead E lead) as [rendered | e] eqn:Hrender; [| discriminate].
    destruct (IH (record (EvTelegram (lead_message E cfg (fst rendered) (snd rendered)) None) w)
                 Hrest) as (w' & Hrun & Htrace & Hlen).
    exists w'. split; [| split].
    + cbn [for_each]. unfold bind at 1.
      rewrite (notify_lead_rendered _ _ _ _ _ Hrender).
      unfold telegram at 1. rewrite Htg. exact Hrun.
    + rewrite Htrace, trace_record, <- app_assoc.
      cbn [omap list_omap]. unfold message_of at 2. rewrite Hrender. reflexivity.
    + cbn [omap list_omap]. unfold message_of at 1. rewrite Hrender.
      simpl. now rewrite Hlen.
Qed.

Lemma telegram_calls_sent cs :
  telegram_calls (List.map (fun c => EvTelegram c None) cs) = cs.
Proof. induction cs as [| c cs IH]; [reflexivity |]. cbn. f_equal. exact IH. Qed.

Lemma delivered_sent cs :
  delivered (List.map (fun c => EvTelegram c None) cs) = cs.
Proof. induction cs as [| c cs IH]; [reflexivity |]. cbn. f_equal. exact IH. Qed.

Lemma get_overdue_leads_quiet E cfg w r w1 :
  get_overdue_leads E cfg w = (r, w1) ->
  telegram_calls (trace w1) = telegram_calls (trace w)
  /\ delivered (trace w1) = delivered (trace w).
Proof.
  intros H. destruct (get_overdue_leads_trace E cfg w) as (logs & Ht & Hlogs & _).
  rewrite H in Ht. simpl in Ht. rewrite Ht.
  destruct (logs_silent logs Hlogs) as (_ & Hc & _ & Hd).
  rewrite telegram_calls_app, delivered_app. simpl. unfold telegram_calls, delivered in *.
  rewrite Hc, Hd, !app_nil_r. auto.
Qed.

(** C1, as amended: the loop over the fetched leads has no handler of its
    own.  When the leads before one were notified and the send for that
    one fails, the cycle ends with that exception straight after the
    failed call: the world it leaves holds nothing for the leads behind. *)
Theorem send_failure_ends_cycle (E : env) (cfg : config) (w w1 w2 : world)
    (pre rest : list pyval) (lead : pyval) (rendered : pyval * string) (e : exn) :
  get_overdue_leads E cfg w = (Ok (PList (pre ++ lead :: rest)), w1) ->
  for_each (notify_lead E cfg) pre w1 = (Ok tt, w2) ->
  render_lead E lead = Ok rendered ->
  telegram_error E (trace w2) (lead_message E cfg (fst rendered) (snd rendered)) = Some e ->
  send_leads_to_manager E cfg w
  = (Raise e,
     record (EvTelegram (lead_message E cfg (fst rendered) (snd rendered)) (Some e)) w2).
Proof.
  intros Hfetch Hpre Hrender Hfail.
  assert (Hrun : send_leads_to_manager E cfg w
                 = for_each (notify_lead E cfg) (pre ++ lead :: rest) w1).
  { destruct pre; eapply send_leads_to_manager_list; exact Hfetch. }
  rewrite Hrun. eapply for_each_abort; [exact Hpre |].
  rewrite (notify_lead_rendered _ _ _ _ _ Hrender).
  unfold telegram. now rewrite Hfail.
Qed.

Lemma send_failure_ends_cycle_witness :
  let E := demo_env (found [lead_42; lead_43]) first_fails in
  exists w',
    send_leads_to_manager E demo_cfg initial_world
    = (Raise (TelegramAPIError "Bad Request: can't parse entities"), w')
    /\ telegram_calls (trace w') = omap (message_of E demo_cfg) [lead_42].
Proof.
  intros E. eexists. split.
  - apply (send_failure_ends_cycle E demo_cfg initial_world
             (snd (get_overdue_leads E demo_cfg initial_world))
             (snd (get_overdue_leads E demo_cfg initial_world))
             [] [lead_43] lead_42
             (PStr "42", lead_text E (PStr "42") (PStr "Acme Corp") (PStr phone_sentinel))).
    + reflexivity.
    + reflexivity.
    + reflexivity.
    + reflexivity.
  - reflexivity.
Defined.

(** C1, as the claim has it, fails: two leads are fetched, the send for
    the first fails, and the message of the second, which would have gone
    through, is never sent. *)
Lemma first_send_failure_hides_second_lead :
  let E := demo_env (found [lead_42; lead_43]) first_fails in
  let w' := snd (send_leads_to_manager E demo_cfg initial_world) in
  fst (get_overdue_leads E demo_cfg initial_world) = Ok (PList [lead_42; lead_43])
  /\ fst (send_leads_to_manager E demo_cfg initial_world)
     = Raise (TelegramAPIError "Bad Request: can't parse entities")
  /\ telegram_calls (trace w') = omap (message_of E demo_cfg) [lead_42]
  /\ (forall m, message_of E demo_cfg lead_43 = Some m ->
                telegram_error E (trace w') m = None /\ ~ In m (telegram_calls (trace w'))).
Proof.
  intros E w'. split; [reflexivity |]. split; [reflexivity |]. split; [reflexivity |].
  intros m Hm. inversion Hm; subst m. split; [reflexivity |].
  vm_compute. intros [Heq | []]. discriminate.
Qed.

(** C3, as amended: from the world the fetch leaves, a cycle makes exactly
    one chat call, the diagnostic, when the fetch returned [None]; makes
    none when it returned the empty list; and, when it returned a list of
    N >= 1 leads that all render and every send goes through, makes
    exactly N, one per lead and in the order of the list. *)
Theorem cycle_messages (E : env) (cfg : config) (w w1 : world) (v : pyval) :
  get_overdue_leads E cfg w = (Ok v, w1) ->
  let w' := snd (send_leads_to_manager E cfg w) in
  (v = PNone ->
   telegram_calls (trace w') = telegram_calls (trace w) ++ [crm_unreachable cfg])
  /\ (v = PList [] -> telegram_calls (trace w') = telegram_calls (trace w))
  /\ (forall leads,
        v = PList leads -> leads <> [] ->
        forallb (renders E) leads = true ->
        (forall h c, telegram_error E h c = None) ->
        fst (send_leads_to_manager E cfg w) = Ok tt
        /\ telegram_calls (trace w')
           = telegram_calls (trace w) ++ omap (message_of E cfg) leads
        /\ delivered (trace w') = delivered (trace w) ++ omap (message_of E cfg) leads
        /\ List.length (omap (message_of E cfg) leads) = List.length leads).
Proof.
  intros Hfetch w'. subst w'.
  destruct (get_overdue_leads_quiet _ _ _ _ _ Hfetch) as [Hcalls Hdel].
  rewrite (send_leads_to_manager_fetched _ _ _ _ _ Hfetch).
  split; [| split].
  - intros ->. unfold telegram. cbn [snd]. rewrite trace_record, telegram_calls_app, Hcalls.
    reflexivity.
  - intros ->. cbn. exact Hcalls.
  - intros leads -> Hne Hr Htg.
    destruct leads as [| lead leads]; [contradiction |].
    change ((if negb (Py.truthy (PList (lead :: leads))) then (Ok tt, w1)
             else (let* items := lift (Py.iter (PList (lead :: leads)))
                   in for_each (notify_lead E cfg) items) w1))
      with (for_each (notify_lead E cfg) (lead :: leads) w1).
    destruct (for_each_notify_delivers E cfg (lead :: leads) w1 Htg Hr)
      as (w2 & Hrun & Htrace & Hlen).
    rewrite Hrun. cbn [fst snd].
    rewrite Htrace, telegram_calls_app, delivered_app, telegram_calls_sent, delivered_sent,
      Hcalls, Hdel.
    auto.
Qed.

Lemma cycle_messages_witness :
  let E := demo_env (found [lead_42; lead_43]) never_fails in
  List.length
    (telegram_calls (trace (snd (send_leads_to_manager E demo_cfg initial_world)))) = 2.
Proof.
  intros E.
  destruct (cycle_messages E demo_cfg initial_world
              (snd (get_overdue_leads E demo_cfg initial_world))
              (PList [lead_42; lead_43]) eq_refl) as (_ & _ & H).
  destruct (H [lead_42; lead_43] eq_refl ltac:(discriminate) eq_refl
              ltac:(reflexivity)) as (_ & Hcalls & _ & Hlen).
  rewrite Hcalls. exact Hlen.
Defined.

(** C3, as the claim has it, fails: one lead is fetched, its [PHONE] is an
    empty list, and the cycle raises without having sent anything. *)
Lemma lead_without_phones_sends_nothing :
  let E := demo_env (found [lead_no_phones]) never_fails in
  fst (get_overdue_leads E demo_cfg initial_world) = Ok (PList [lead_no_phones])
  /\ fst (send_leads_to_manager E demo_cfg initial_world) = Raise IndexError
  /\ telegram_calls (trace (snd (send_leads_to_manager E demo_cfg initial_world))) = [].
Proof. repeat split. Qed.

Lemma lead_phone_absent d :
  Py.dict_get "PHONE" d = None -> lead_phone (PDict d) = Ok (PStr phone_sentinel).
Proof. intros H. unfold lead_phone, Py.get. now rewrite H. Qed.

Lemma lead_phone_empty_list d :
  Py.dict_get "PHONE" d = Some (PList []) -> lead_phone (PDict d) = Raise IndexError.
Proof. intros H. unfold lead_phone, Py.get. now rewrite H. Qed.

(** C9: for a lead with its [ID] and [TITLE], the message is rendered with
    the sentinel in the phone field when the [PHONE] key is absent; when
    [PHONE] is present and holds an empty list, taking element 0 of it
    raises [IndexError]: no message is rendered or sent for the lead, and
    a cycle that reaches the lead ends with that exception. *)
Theorem phone_field_precondition (E : env) (cfg : config)
    (d : list (string * pyval)) (lead_id title : pyval) :
  Py.dict_get "ID" d = Some lead_id ->
  Py.dict_get "TITLE" d = Some title ->
  match Py.dict_get "PHONE" d with
  | None =>
      render_lead E (PDict d)
      = Ok (lead_id,
            "**Просроченный лид!**" +:+ Py.nl +:+ Py.nl
            +:+ "**ID:** `" +:+ Py.str (repr_container E) lead_id +:+ "`" +:+ Py.nl
            +:+ "**Название:** " +:+ Py.str (repr_container E) title +:+ Py.nl
            +:+ "**Телефон:** `не указан" +:+ Py.nl +:+ "`")
  | Some (PList []) =>
      render_lead E (PDict d) = Raise IndexError
      /\ (forall w, notify_lead E cfg (PDict d) w = (Raise IndexError, w))
      /\ (forall w w1 w2 pre rest,
            get_overdue_leads E cfg w = (Ok (PList (pre ++ PDict d :: rest)), w1) ->
            for_each (notify_lead E cfg) pre w1 = (Ok tt, w2) ->
            send_leads_to_manager E cfg w = (Raise IndexError, w2))
  | Some _ => True
  end.
Proof.
  intros Hid Htitle.
  destruct (Py.dict_get "PHONE" d) as [phones |] eqn:Hphone.
  - destruct phones as [| | | | | [| p ps] |]; try exact I.
    assert (Hrender : render_lead E (PDict d) = Raise IndexError).
    { unfold render_lead, Py.getitem. rewrite Hid, Htitle.
      now rewrite (lead_phone_empty_list _ Hphone). }
    split; [exact Hrender |]. split.
    + intros w. now apply notify_lead_unrendered.
    + intros w w1 w2 pre rest Hfetch Hpre.
      assert (Hrun : send_leads_to_manager E cfg w
                     = for_each (notify_lead E cfg) (pre ++ PDict d :: rest) w1).
      { destruct pre; eapply send_leads_to_manager_list; exact Hfetch. }
      rewrite Hrun. eapply for_each_abort; [exact Hpre |].
      now apply notify_lead_unrendered.
  - unfold render_lead, Py.getitem. rewrite Hid, Htitle.
    rewrite (lead_phone_absent _ Hphone). reflexivity.
Qed.

Lemma phone_field_precondition_witness :
  let E := demo_env (found [lead_42; lead_no_phones]) never_fails in
  render_lead E lead_no_phones = Raise IndexError
  /\ fst (send_leads_to_manager E demo_cfg initial_world) = Raise IndexError.
Proof.
  intros E.
  destruct (phone_field_precondition E demo_cfg
              [("ID", PStr "44"); ("TITLE", PStr "Cart LLC"); ("PHONE", PList [])]
              (PStr "44") (PStr "Cart LLC") eq_refl eq_refl) as (Hrender & _ & Hcycle).
  split; [exact Hrender |].
  rewrite (Hcycle initial_world
             (snd (get_overdue_leads E demo_cfg initial_world))
             (snd (for_each (notify_lead E demo_cfg) [lead_42]
                     (snd (get_overdue_leads E demo_cfg initial_world))))
             [lead_42] [] eq_refl eq_refl).
  reflexivity.
Defined.

(** ** Action handlers *)

Lemma gateway_cases E cfg a lead_id w :
  let url := fst (gateway_request E cfg a lead_id w) in
  let params := snd (gateway_request E cfg a lead_id w) in
  let out := http_reply E (trace w) url params in
  exists done_msg failed_msg,
    gateway E cfg a lead_id w
    = gateway_result done_msg failed_msg out (record (EvPost url params out) w).
Proof.
  cbv zeta. destruct a; cbn [gateway gateway_request fst snd]; do 2 eexists.
  - apply add_comment_to_lead_cases.
  - apply add_comment_to_lead_cases.
  - apply create_task_for_lead_cases.
Qed.

Lemma gateway_ok E cfg a lead_id w : exists v, fst (gateway E cfg a lead_id w) = Ok v.
Proof.
  destruct (gateway_cases E cfg a lead_id w) as (dm & fm & ->).
  apply gateway_result_ok.
Qed.

Lemma gateway_trace E cfg a lead_id w :
  let url := fst (gateway_request E cfg a lead_id w) in
  let params := snd (gateway_request E cfg a lead_id w) in
  exists logs,
    trace (snd (gateway E cfg a lead_id w))
    = trace w ++ EvPost url params (http_reply E (trace w) url params) :: logs
    /\ Forall is_log logs.
Proof.
  cbv zeta. destruct (gateway_cases E cfg a lead_id w) as (dm & fm & ->).
  destruct (gateway_result_trace dm fm
              (http_reply E (trace w) (fst (gateway_request E cfg a lead_id w))
                          (snd (gateway_request E cfg a lead_id w)))
              (record (EvPost (fst (gateway_request E cfg a lead_id w))
                              (snd (gateway_request E cfg a lead_id w))
                              (http_reply E (trace w)
                                 (fst (gateway_request E cfg a lead_id w))
                                 (snd (gateway_request E cfg a lead_id w)))) w))
    as (logs & Ht & Hlogs & _).
  exists logs. rewrite Ht, trace_record, <- app_assoc. auto.
Qed.

(** every handler is its gateway call followed by the rewrite and the
    acknowledgment, whatever the gateway call returned *)
Lemma handler_run E cfg a callback lead_id w :
  callback_lead_id callback = Ok lead_id ->
  handler E cfg a callback w
  = rewrite_and_acknowledge E a callback lead_id (snd (gateway E cfg a lead_id w)).
Proof.
  intros Hid. destruct (gateway_ok E cfg a lead_id w) as [v Hv].
  destruct a; cbn [handler gateway] in *;
    unfold process_callback_called, process_callback_wrote, process_callback_delay;
    unfold bind at 1, lift; rewrite Hid; unfold bind at 1;
    match goal with
    | |- context [match ?g with _ => _ end] =>
        destruct g as [[v' | e] w1]; [reflexivity | discriminate]
    end.
Qed.

Lemma rewrite_and_acknowledge_trace E a callback lead_id w1 :
  let edit_err := telegram_error E (trace w1) (rewrite_of a callback) in
  exists tail,
    trace (snd (rewrite_and_acknowledge E a callback lead_id w1))
    = trace w1 ++ EvTelegram (rewrite_of a callback) edit_err :: tail
    /\ posts tail = []
    /\ (edit_err = None -> telegram_calls tail = [acknowledgment a lead_id]).
Proof.
  cbv zeta. unfold rewrite_and_acknowledge, bind, telegram at 1.
  destruct (telegram_error E (trace w1) (rewrite_of a callback)) as [e |]; cbn [outcome].
  - exists []. cbn [snd]. rewrite trace_record. repeat split. discriminate.
  - eexists [_]. unfold telegram. cbn [snd]. rewrite !trace_record, <- app_assoc.
    repeat split.
Qed.

(** the chat calls and the requests of one handler run *)
Lemma handler_trace E cfg a callback lead_id w :
  callback_lead_id callback = Ok lead_id ->
  let w1 := snd (gateway E cfg a lead_id w) in
  let w' := snd (handler E cfg a callback w) in
  posts (trace w') = posts (trace w) ++ [gateway_request E cfg a lead_id w]
  /\ exists more,
       telegram_calls (trace w')
       = telegram_calls (trace w) ++ rewrite_of a callback :: more
       /\ (telegram_error E (trace w1) (rewrite_of a callback) = None ->
           more = [acknowledgment a lead_id]).
Proof.
  intros Hid. cbv zeta. rewrite (handler_run _ _ _ _ _ _ Hid).
  destruct (gateway_trace E cfg a lead_id w) as (logs & Hg & Hlogs). cbv zeta in Hg.
  destruct (rewrite_and_acknowledge_trace E a callback lead_id
              (snd (gateway E cfg a lead_id w))) as (tail & Ht & Hposts & Hcalls).
  cbv zeta in Ht, Hcalls.
  destruct (logs_silent logs Hlogs) as (Hlp & Hlc & _).
  split.
  - rewrite Ht, Hg, !posts_app. cbn. unfold posts in *. cbn. rewrite Hlp.
    cbn. rewrite Hposts, app_nil_r. now destruct (gateway_request E cfg a lead_id w).
  - exists (telegram_calls tail). split; [| exact Hcalls].
    rewrite Ht, Hg, !telegram_calls_app. cbn. unfold telegram_calls in *. cbn. rewrite Hlc.
    cbn. now rewrite app_nil_r.
Qed.

(** the chat calls of one handler run, all of them: the rewrite, and the
    acknowledgment when the rewrite went through *)
Lemma handler_calls E cfg a callback lead_id w :
  callback_lead_id callback = Ok lead_id ->
  telegram_calls (trace (snd (handler E cfg a callback w)))
  = telegram_calls (trace w)
    ++ rewrite_of a callback
    :: match telegram_error E (trace (snd (gateway E cfg a lead_id w)))
                            (rewrite_of a callback) with
       | None => [acknowledgment a lead_id]
       | Some _ => []
       end.
Proof.
  intros Hid. rewrite (handler_run _ _ _ _ _ _ Hid).
  destruct (gateway_trace E cfg a lead_id w) as (logs & Hg & Hlogs). cbv zeta in Hg.
  destruct (logs_silent logs Hlogs) as (_ & Hlc & _).
  assert (Hquiet : telegram_calls (trace (snd (gateway E cfg a lead_id w)))
                   = telegram_calls (trace w)).
  { rewrite Hg, telegram_calls_app. cbn. unfold telegram_calls in *. cbn.
    rewrite Hlc. apply app_nil_r. }
  unfold rewrite_and_acknowledge, bind, telegram at 1.
  destruct (telegram_error E (trace (snd (gateway E cfg a lead_id w)))
                           (rewrite_of a callback)) as [e |]; cbn [outcome snd].
  - now rewrite trace_record, telegram_calls_app, Hquiet.
  - unfold telegram. cbn [snd].
    now rewrite !trace_record, !telegram_calls_app, Hquiet, <- app_assoc.
Qed.

Lemma prefix_split p s :
  String.prefix p s = true -> exists rest, s = p +:+ rest.
Proof.
  revert s. induction p as [| c p IH]; intros s H.
  - exists s. reflexivity.
  - destruct s as [| c' s]; [discriminate |]. simpl in H.
    destruct (ascii_dec c c') as [<- |]; [| discriminate].
    destruct (IH s H) as [rest ->]. exists rest. reflexivity.
Qed.

Lemma split_nonempty sep s : exists h t, Py.split sep s = h :: t.
Proof.
  induction s as [| c s IH]; simpl.
  - eauto.
  - destruct (Ascii.eqb c sep); [eauto |]. destruct IH as (h & t & ->). eauto.
Qed.

(** a query that passes one of the three filters carries a lead id *)
Lemma routed_has_lead_id a callback :
  String.prefix (filter_prefix a) (data callback) = true ->
  exists lead_id, callback_lead_id callback = Ok lead_id.
Proof.
  intros H. apply prefix_split in H as [rest Hd].
  unfold callback_lead_id. rewrite Hd.
  destruct (split_nonempty ":" rest) as (h & t & Hs).
  assert (Hsplit : exists name,
             Py.split ":" (filter_prefix a +:+ rest) = name :: Py.split ":" rest)
    by (destruct a; eexists; reflexivity).
  destruct Hsplit as [name ->]. rewrite Hs. exists h. reflexivity.
Qed.

Lemma dispatch_callback_routes E cfg a callback :
  String.prefix (filter_prefix a) (data callback) = true ->
  dispatch_callback E cfg callback = handler E cfg a callback.
Proof.
  intros H. destruct (prefix_split _ _ H) as [rest Hd].
  unfold dispatch_callback. destruct a; cbn [filter_prefix handler] in *.
  - now rewrite H.
  - assert (String.prefix "called:" (data callback) = false) as ->
      by (rewrite Hd; reflexivity).
    now rewrite H.
  - assert (String.prefix "called:" (data callback) = false) as ->
      by (rewrite Hd; reflexivity).
    assert (String.prefix "wrote:" (data callback) = false) as ->
      by (rewrite Hd; reflexivity).
    now rewrite H.
Qed.

(** C4, as amended: when the request of a handler's gateway call ends in
    a transport failure, a 4xx or 5xx status or a body that is not JSON,
    the gateway function returns [None] instead of raising, and the handler
    goes on exactly as it does after a gateway call that succeeded: it
    calls [edit_text] with the text of the message plus the label of the
    action, and it answers the tap when that rewrite went through.  When
    the rewrite itself raises, the handler makes no further chat call. *)
Theorem gateway_failure_keeps_handler_going (E : env) (cfg : config) (a : action)
    (callback : CallbackQuery) (lead_id : string) (w : world) :
  callback_lead_id callback = Ok lead_id ->
  gateway_error (http_reply E (trace w) (fst (gateway_request E cfg a lead_id w))
                            (snd (gateway_request E cfg a lead_id w))) = true ->
  let w1 := snd (gateway E cfg a lead_id w) in
  let edit :=
    EditText (message_id callback) (message_text callback +:+ label_of a) "Markdown" in
  fst (gateway E cfg a lead_id w) = Ok PNone
  /\ handler E cfg a callback w
     = (do telegram E edit then telegram E (acknowledgment a lead_id)) w1
  /\ telegram_calls (trace (snd (handler E cfg a callback w)))
     = telegram_calls (trace w)
       ++ edit
       :: match telegram_error E (trace w1) edit with
          | None => [acknowledgment a lead_id]
          | Some _ => []
          end.
Proof.
  intros Hid Herr. cbv zeta. split; [| split].
  - destruct (gateway_cases E cfg a lead_id w) as (dm & fm & ->).
    now apply gateway_result_error.
  - now apply handler_run.
  - apply (handler_calls E cfg a callback lead_id w Hid).
Qed.

Lemma gateway_failure_keeps_handler_going_witness :
  let E := demo_env TransportFailure never_fails in
  telegram_calls (trace (snd (handler E demo_cfg Delay tap_delay_42 initial_world)))
  = [ EditText 1001 ("lead 42" +:+ delay_label) "Markdown";
      CallbackAnswer "Создана задача для лида 42" ].
Proof.
  intros E.
  destruct (gateway_failure_keeps_handler_going E demo_cfg Delay tap_delay_42 "42"
              initial_world eq_refl eq_refl) as (_ & _ & Hcalls).
  rewrite Hcalls. reflexivity.
Defined.

(** C4, as the claim has it, fails: the request of the gateway call fails,
    the gateway function returns [None], and then the rewrite fails too:
    the handler ends with the exception of [edit_text] and the tap is
    never answered. *)
Lemma failed_rewrite_leaves_tap_unanswered :
  let E := demo_env TransportFailure always_fails in
  let run := handler E demo_cfg Called tap_called_42 initial_world in
  fst (gateway E demo_cfg Called "42" initial_world) = Ok PNone
  /\ fst run = Raise (TelegramAPIError "Forbidden: bot was blocked by the user")
  /\ telegram_calls (trace (snd run))
     = [EditText 1001 ("lead 42" +:+ called_label) "Markdown"]
  /\ ~ In (CallbackAnswer "Отметили звонок по лиду 42") (telegram_calls (trace (snd run))).
Proof.
  intros E run. split; [reflexivity |]. split; [reflexivity |]. split; [reflexivity |].
  vm_compute. intros [Heq | []]. discriminate.
Qed.

(** C7: a tap routed to the handler of an action makes exactly one request
    to the CRM, the one of that action: for Called and Wrote a timeline
    comment on the lead with the text of the action, for Delay a task on
    the lead with the deadline two hours after the time of the tap.  The
    handler rewrites the message once, to its text followed by exactly the
    label of that action, and its only other chat call is the answer to
    the tap, made when the rewrite went through. *)
Theorem tap_makes_matching_gateway_call (E : env) (cfg : config) (a : action)
    (callback : CallbackQuery) (w : world) :
  String.prefix (filter_prefix a) (data callback) = true ->
  exists lead_id,
    let w' := snd (dispatch_callback E cfg callback w) in
    let edit :=
      EditText (message_id callback)
        (message_text callback
         +:+ match a with
             | Called => Py.nl +:+ Py.nl +:+ "*Статус: ✅ Обработан (звонок)*"
             | Wrote => Py.nl +:+ Py.nl +:+ "*Статус: 💬 Обработан (написал)*"
             | Delay => Py.nl +:+ Py.nl +:+ "*Статус: ⏳ Задача на перезвон создана*"
             end)
        "Markdown" in
    callback_lead_id callback = Ok lead_id
    /\ posts (trace w')
       = posts (trace w)
         ++ [ match a with
              | Called =>
                  (fmt_opt (BITRIX_WEBHOOK cfg) +:+ "crm.timeline.comment.add",
                   PDict [ ("fields",
                            PDict [ ("ENTITY_ID", PStr lead_id);
                                    ("ENTITY_TYPE", PStr "lead");
                                    ("COMMENT", PStr "Менеджер позвонил клиенту.") ]) ])
              | Wrote =>
                  (fmt_opt (BITRIX_WEBHOOK cfg) +:+ "crm.timeline.comment.add",
                   PDict [ ("fields",
                            PDict [ ("ENTITY_ID", PStr lead_id);
                                    ("ENTITY_TYPE", PStr "lead");
                                    ("COMMENT", PStr "Менеджер написал клиенту.") ]) ])
              | Delay =>
                  (fmt_opt (BITRIX_WEBHOOK cfg) +:+ "tasks.task.add",
                   PDict [ ("fields",
                            PDict [ ("TITLE",
                                     PStr ("Связаться с клиентом по лиду №" +:+ lead_id));
                                    ("RESPONSIBLE_ID", PInt 1);
                                    ("DEADLINE",
                                     PStr (isoformat E
                                             (clock E (trace w) + 7200 * 1000000)));
                                    ("UF_CRM_TASK", PList [PStr ("L_" +:+ lead_id)]) ]) ])
              end ]
    /\ telegram_calls (trace w')
       = telegram_calls (trace w)
         ++ edit
         :: match telegram_error E (trace (snd (gateway E cfg a lead_id w))) edit with
            | None =>
                [ CallbackAnswer
                    (match a with
                     | Called => "Отметили звонок по лиду "
                     | Wrote => "Отметили сообщение по лиду "
                     | Delay => "Создана задача для лида "
                     end +:+ lead_id) ]
            | Some _ => []
            end.
Proof.
  intros Hroute. destruct (routed_has_lead_id a callback Hroute) as [lead_id Hid].
  destruct (handler_trace E cfg a callback lead_id w Hid) as (Hposts & _).
  pose proof (handler_calls E cfg a callback lead_id w Hid) as Hcalls.
  exists lead_id. cbv zeta.
  rewrite (dispatch_callback_routes E cfg a callback Hroute).
  split; [exact Hid |]. split.
  - rewrite Hposts. destruct a; reflexivity.
  - rewrite Hcalls. destruct a; reflexivity.
Qed.

Lemma tap_makes_matching_gateway_call_witness :
  let E := demo_env (Response 200 (Some (PDict [("result", PInt 7)]))) never_fails in
  exists deadline,
    posts (trace (snd (dispatch_callback E demo_cfg tap_delay_42 initial_world)))
    = [ (task_add_url demo_cfg, task_params "42" deadline) ]
    /\ telegram_calls (trace (snd (dispatch_callback E demo_cfg tap_delay_42 initial_world)))
       = [ EditText 1001 ("lead 42" +:+ delay_label) "Markdown";
           CallbackAnswer "Создана задача для лида 42" ].
Proof.
  intros E.
  destruct (tap_makes_matching_gateway_call E demo_cfg Delay tap_delay_42 initial_world
              eq_refl) as (lead_id & Hid & Hposts & Hcalls).
  inversion Hid; subst lead_id. eexists. rewrite Hposts, Hcalls. split; reflexivity.
Defined.

Lemma string_length_app (s t : string) :
  String.length (s +:+ t) = String.length s + String.length t.
Proof. induction s as [| c s IH]; simpl; [reflexivity | now rewrite IH]. Qed.

Lemma label_not_empty a : exists c rest, label_of a = String c rest.
Proof. destruct a; eexists; eexists; reflexivity. Qed.

Lemma label_changes_text a (text : string) : text +:+ label_of a <> text.
Proof.
  intros H. apply (f_equal String.length) in H. rewrite string_length_app in H.
  destruct (label_not_empty a) as (c & rest & Hl). rewrite Hl in H. simpl in H. lia.
Qed.

(** C10: no handler looks at whether the message was rewritten before.
    When the same action is tapped again on the message as the first tap
    left it, the handler sends the request to the CRM again, and its
    rewrite, the last rewrite of the message, sets a text that carries the
    label twice; that text is not the text after the first tap.  Besides
    the two rewrites the only chat calls are the answers to the taps. *)
Theorem repeated_tap_repeats (E : env) (cfg : config) (a : action)
    (callback : CallbackQuery) (lead_id : string) (w : world) :
  callback_lead_id callback = Ok lead_id ->
  let w1 := snd (handler E cfg a callback w) in
  let w2 := snd (handler E cfg a (tapped_again a callback) w1) in
  let once := message_text callback +:+ label_of a in
  let twice := (message_text callback +:+ label_of a) +:+ label_of a in
  let first_rewrite := EditText (message_id callback) once "Markdown" in
  let second_rewrite := EditText (message_id callback) twice "Markdown" in
  let answered (err : option exn) : list tg_call :=
    match err with
    | None => [acknowledgment a lead_id]
    | Some _ => []
    end in
  posts (trace w2)
  = posts (trace w)
    ++ [gateway_request E cfg a lead_id w; gateway_request E cfg a lead_id w1]
  /\ fst (gateway_request E cfg a lead_id w1) = fst (gateway_request E cfg a lead_id w)
  /\ (a <> Delay -> gateway_request E cfg a lead_id w1 = gateway_request E cfg a lead_id w)
  /\ telegram_calls (trace w2)
     = telegram_calls (trace w)
       ++ first_rewrite
       :: answered (telegram_error E (trace (snd (gateway E cfg a lead_id w)))
                                   first_rewrite)
       ++ second_rewrite
       :: answered (telegram_error E (trace (snd (gateway E cfg a lead_id w1)))
                                   second_rewrite)
  /\ twice <> once.
Proof.
  intros Hid. cbv zeta.
  destruct (handler_trace E cfg a callback lead_id w Hid) as (Hp1 & _).
  destruct (handler_trace E cfg a (tapped_again a callback) lead_id
              (snd (handler E cfg a callback w)) Hid) as (Hp2 & _).
  pose proof (handler_calls E cfg a callback lead_id w Hid) as Hc1.
  pose proof (handler_calls E cfg a (tapped_again a callback) lead_id
                (snd (handler E cfg a callback w)) Hid) as Hc2.
  cbv zeta in *. repeat split.
  - rewrite Hp2, Hp1, <- app_assoc. reflexivity.
  - destruct a; reflexivity.
  - destruct a; try reflexivity. congruence.
  - rewrite Hc2, Hc1, <- app_assoc. reflexivity.
  - apply label_changes_text.
Qed.

Lemma repeated_tap_repeats_witness :
  let E := demo_env (Response 200 (Some (PDict [("result", PInt 7)]))) never_fails in
  let w1 := snd (handler E demo_cfg Called tap_called_42 initial_world) in
  let w2 := snd (handler E demo_cfg Called (tapped_again Called tap_called_42) w1) in
  posts (trace w2)
  = [ (comment_add_url demo_cfg, comment_params "42" called_comment);
      (comment_add_url demo_cfg, comment_params "42" called_comment) ].
Proof.
  intros E w1 w2.
  destruct (repeated_tap_repeats E demo_cfg Called tap_called_42 "42" initial_world eq_refl)
    as (Hposts & _).
  exact Hposts.
Defined.

(** ** Escalation scheduler: the loop *)

Lemma quiet_tail tail :
  Forall is_log_or_telegram tail -> posts tail = [] /\ sleeps tail = [].
Proof.
  induction 1 as [| ev tail Hev _ IH]; [split; reflexivity |].
  destruct ev; try contradiction; exact IH.
Qed.

Lemma emits_only_telegram E c : emits_only is_log_or_telegram (telegram E c).
Proof.
  intros w. exists [EvTelegram c (telegram_error E (trace w) c)].
  repeat split. repeat constructor.
Qed.

Lemma emits_only_notify_lead E cfg lead :
  emits_only is_log_or_telegram (notify_lead E cfg lead).
Proof.
  unfold notify_lead. apply emits_only_bind; [auto with bot |].
  intros rendered. apply emits_only_telegram.
Qed.

Lemma send_leads_to_manager_trace E cfg w :
  exists tail,
    trace (snd (send_leads_to_manager E cfg w))
    = trace w
      ++ EvPost (lead_list_url cfg) (overdue_request E w)
           (http_reply E (trace w) (lead_list_url cfg) (overdue_request E w))
      :: tail
    /\ Forall is_log_or_telegram tail.
Proof.
  destruct (get_overdue_leads_trace E cfg w) as (logs & Ht & Hlogs & _).
  assert (Hlogs' : Forall is_log_or_telegram logs).
  { eapply Forall_impl; [exact Hlogs |]. intros [] H; try contradiction; exact I. }
  unfold send_leads_to_manager, bind at 1.
  destruct (get_overdue_leads E cfg w) as [[v | e] w1]; cbn [snd] in *.
  - assert (Hk : emits_only is_log_or_telegram
                   (match v with
                    | PNone => telegram E (crm_unreachable cfg)
                    | _ =>
                        if negb (Py.truthy v) then ret tt
                        else let* items := lift (Py.iter v)
                             in for_each (notify_lead E cfg) items
                    end)).
    { assert (Hgen : emits_only is_log_or_telegram
                       (if negb (Py.truthy v) then ret tt
                        else let* items := lift (Py.iter v)
                             in for_each (notify_lead E cfg) items)).
      { destruct (negb _); [auto with bot |].
        apply emits_only_bind; [auto with bot |]. intros items.
        apply emits_only_for_each. apply emits_only_notify_lead. }
      destruct v; try exact Hgen. apply emits_only_telegram. }
    destruct (Hk w1) as (d & Hd & Hq & _).
    exists (logs ++ d). rewrite Hd, Ht, <- app_assoc. split; [reflexivity |].
    apply Forall_app; auto.
  - exists logs. auto.
Qed.

(** case analysis on the values a hypothesis inspects, innermost first *)
Ltac crack H :=
  repeat (cbn beta iota in H;
          match type of H with
          | context [match ?x with _ => _ end] => is_var x; destruct x
          | context [match Py.dict_get ?k ?d with _ => _ end] =>
              destruct (Py.dict_get k d)
          | context [match Py.str_chars ?s with _ => _ end] =>
              destruct (Py.str_chars s)
          | context [if Py.dict_has ?k ?d then _ else _] =>
              unfold Py.dict_has in H
          | context [if ?x then _ else _] => destruct x
          end).

Lemma pure_results_are_exceptions E lead e :
  render_lead E lead = Raise e -> is_Exception e = true.
Proof.
  unfold render_lead, lead_phone, Py.getitem, Py.get, Py.getitem0. intros H.
  crack H; inversion H; reflexivity.
Qed.

Lemma iter_raises_exception v e : Py.iter v = Raise e -> is_Exception e = true.
Proof. destruct v; intros H; inversion H; reflexivity. Qed.

Lemma select_leads_raises_exception data :
  raises_only (fun e => is_Exception e = true) (select_leads data).
Proof.
  intros w e w'. unfold select_leads, bind, lift, ret, logging_info,
    Py.contains, Py.getitem, Py.len.
  intros H. crack H; inversion H; reflexivity.
Qed.

Lemma get_overdue_leads_raises_exception E cfg :
  raises_only (fun e => is_Exception e = true) (get_overdue_leads E cfg).
Proof.
  intros w e w'. pose proof (get_overdue_leads_cases E cfg w) as H. cbv zeta in H.
  rewrite H. clear H.
  destruct (http_reply E _ _ _) as [| st [data |]]; [discriminate | |];
    destruct (status_raises st); try discriminate.
  rewrite try_except_uncaught by apply select_leads_raises.
  apply select_leads_raises_exception.
Qed.

Lemma telegram_raises_exception E c :
  (forall h c e, telegram_error E h c = Some e -> is_Exception e = true) ->
  raises_only (fun e => is_Exception e = true) (telegram E c).
Proof.
  intros Htg w e w'. unfold telegram.
  destruct (telegram_error E (trace w) c) as [e0 |] eqn:Herr; [| discriminate].
  intros H; inversion H; subst. eapply Htg; eauto.
Qed.

Lemma send_leads_to_manager_raises_exception E cfg :
  (forall h c e, telegram_error E h c = Some e -> is_Exception e = true) ->
  raises_only (fun e => is_Exception e = true) (send_leads_to_manager E cfg).
Proof.
  intros Htg. unfold send_leads_to_manager.
  apply raises_only_bind; [apply get_overdue_leads_raises_exception |].
  intros v.
  assert (Hgen : raises_only (fun e => is_Exception e = true)
                   (if negb (Py.truthy v) then ret tt
                    else let* items := lift (Py.iter v)
                         in for_each (notify_lead E cfg) items)).
  { destruct (negb _); [apply raises_only_ret |].
    apply raises_only_bind.
    - intros w e w' H. unfold lift in H. inversion H.
      eapply iter_raises_exception; eauto.
    - intros items. apply raises_only_for_each. intros lead.
      unfold notify_lead. apply raises_only_bind.
      + intros w e w' H. unfold lift in H. inversion H.
        eapply pure_results_are_exceptions; eauto.
      + intros rendered. now apply telegram_raises_exception. }
  destruct v; try exact Hgen. now apply telegram_raises_exception.
Qed.

(** one round of the loop under an outside that never cancels: the cycle,
    a log line when the cycle raised, the sleep *)
Lemma periodic_check_round E cfg interval rounds w :
  never_cancelled E ->
  periodic_check E cfg interval (S rounds) w
  = periodic_check E cfg interval rounds
      (record (EvSleep interval None)
         (match fst (send_leads_to_manager E cfg w) with
          | Ok _ => snd (send_leads_to_manager E cfg w)
          | Raise e => record (cycle_failed e) (snd (send_leads_to_manager E cfg w))
          end)).
Proof.
  intros [Htg Hsleep]. cbn [periodic_check].
  unfold bind at 1, try_except.
  pose proof (send_leads_to_manager_raises_exception E cfg Htg w) as Hexn.
  destruct (send_leads_to_manager E cfg w) as [[[] | e] w1]; cbn [fst snd].
  - unfold bind at 1, asyncio_sleep. rewrite Hsleep. reflexivity.
  - rewrite (Hexn e w1 eq_refl). unfold logging_error.
    unfold bind at 1, asyncio_sleep. cbn [fst snd]. rewrite Hsleep. reflexivity.
Qed.

Lemma round_world_trace E cfg w :
  exists tail,
    trace (match fst (send_leads_to_manager E cfg w) with
           | Ok _ => snd (send_leads_to_manager E cfg w)
           | Raise e => record (cycle_failed e) (snd (send_leads_to_manager E cfg w))
           end)
    = trace w
      ++ EvPost (lead_list_url cfg) (overdue_request E w)
           (http_reply E (trace w) (lead_list_url cfg) (overdue_request E w))
      :: tail
    /\ Forall is_log_or_telegram tail.
Proof.
  destruct (send_leads_to_manager_trace E cfg w) as (tail & Ht & Hq).
  destruct (fst (send_leads_to_manager E cfg w)) as [u | e].
  - exists tail. auto.
  - exists (tail ++ [cycle_failed e]). rewrite trace_record, Ht, <- app_assoc.
    split; [reflexivity |]. apply Forall_app. split; [exact Hq | repeat constructor].
Qed.

(** C6: under an outside that never cancels the task, every round of the
    loop runs the cycle first, logs the exception when the cycle raised
    one, then sleeps for the interval and goes round again; and whatever
    the cycles did, after any number of rounds the loop is still going,
    having fetched once and slept once in every round. *)
Theorem periodic_check_keeps_going (E : env) (cfg : config) (interval : Z) :
  never_cancelled E ->
  forall (rounds : nat) (w : world),
    periodic_check E cfg interval (S rounds) w
    = periodic_check E cfg interval rounds
        (record (EvSleep interval None)
           (match fst (send_leads_to_manager E cfg w) with
            | Ok _ => snd (send_leads_to_manager E cfg w)
            | Raise e =>
                record (EvLog ERROR "Ошибка в ходе периодической проверки: " (Some e))
                       (snd (send_leads_to_manager E cfg w))
            end))
    /\ exists w',
         periodic_check E cfg interval rounds w = (Ok tt, w')
         /\ sleeps (trace w') = sleeps (trace w) ++ repeat interval rounds
         /\ List.length (posts (trace w')) = List.length (posts (trace w)) + rounds.
Proof.
  intros Hnc rounds w. split; [now apply periodic_check_round |].
  revert w. induction rounds as [| rounds IH]; intros w.
  - exists w. cbn. rewrite app_nil_r. repeat split. lia.
  - rewrite (periodic_check_round E cfg interval rounds w Hnc).
    destruct (round_world_trace E cfg w) as (tail & Ht & Hq).
    destruct (quiet_tail tail Hq) as [Hp Hs].
    match goal with
    | |- context [periodic_check E cfg interval rounds ?w0] =>
        destruct (IH w0) as (w' & Hrun & Hsl & Hpo)
    end.
    exists w'. split; [exact Hrun |].
    rewrite trace_record, Ht in Hsl, Hpo.
    rewrite !sleeps_app in Hsl. rewrite !posts_app in Hpo.
    cbn in Hsl, Hpo. unfold sleeps, posts in *. cbn in Hsl, Hpo.
    rewrite Hs in Hsl. rewrite Hp in Hpo. cbn in Hsl, Hpo.
    rewrite !app_nil_r in *. split.
    + rewrite Hsl, <- app_assoc. reflexivity.
    + rewrite Hpo, length_app. cbn. lia.
Qed.

Lemma periodic_check_keeps_going_witness :
  let E := demo_env (found [lead_no_phones]) never_fails in
  exists w',
    periodic_check E demo_cfg 10 3 initial_world = (Ok tt, w')
    /\ sleeps (trace w') = [10; 10; 10]%Z.
Proof.
  intros E.
  assert (Hnc : never_cancelled E) by (split; [discriminate | reflexivity]).
  destruct (periodic_check_keeps_going E demo_cfg 10 Hnc 3 initial_world)
    as (_ & w' & Hrun & Hsleeps & _).
  exists w'. split; [exact Hrun | exact Hsleeps].
Defined.

(** the loop does end when the outside cancels: here in its third sleep *)
Example periodic_check_cancelled :
  let E := {| http_reply := fun _ _ _ => found [];
              telegram_error := never_fails;
              sleep_error := cancel_third_sleep;
              clock := fun _ => 0%Z;
              isoformat := fun t => pretty t;
              repr_container := fun _ => "[...]" |} in
  fst (periodic_check E demo_cfg 10 5 initial_world) = Raise CancelledError
  /\ List.length (sleeps (trace (snd (periodic_check E demo_cfg 10 5 initial_world)))) = 3.
Proof. split; reflexivity. Qed.

(** ** Escalation scheduler: the handle *)

Lemma handle_live_active w :
  handle_inv w -> (handle_live w = true <-> some_active w).
Proof.
  intros [Hact Hhandle]. unfold handle_live, task_done, some_active, active. split.
  - destruct (periodic_check_task w) as [t |] eqn:Hh; [| discriminate].
    destruct (Hhandle t eq_refl) as (k & Hk & Hstate).
    rewrite Hk. destruct k as [i []]; cbn in *; try discriminate; try congruence.
    intros _. exists t, {| task_interval := i; state := Running |}. auto.
  - intros (t & k & Hk & Hstate). rewrite (Hact t (ex_intro _ k (conj Hk Hstate))).
    rewrite Hk. destruct k as [i []]; cbn in *; congruence.
Qed.

Lemma turn_on_when_live E w :
  handle_live w = true ->
  turn_on_periodic_check E w = telegram E (MessageAnswer already_on) w.
Proof. intros H. unfold turn_on_periodic_check. now rewrite H. Qed.

Lemma turn_on_when_not_live E w :
  handle_live w = false ->
  turn_on_periodic_check E w
  = telegram E (MessageAnswer switched_on)
      {| trace := trace w;
         periodic_check_task := Some (List.length (tasks w));
         tasks := tasks w ++ [{| task_interval := 10; state := Running |}] |}.
Proof. intros H. unfold turn_on_periodic_check. now rewrite H. Qed.

Lemma turn_off_when_not_live E w :
  handle_live w = false ->
  turn_off_periodic_check E w = telegram E (MessageAnswer already_off) w.
Proof.
  unfold handle_live, turn_off_periodic_check.
  destruct (periodic_check_task w) as [t |]; [| reflexivity].
  destruct (task_done w t); [reflexivity | discriminate].
Qed.

Lemma turn_off_when_live E w t :
  periodic_check_task w = Some t ->
  handle_live w = true ->
  turn_off_periodic_check E w
  = telegram E (MessageAnswer switched_off)
      {| trace := trace w;
         periodic_check_task := None;
         tasks := alter request_cancel t (tasks w) |}.
Proof.
  unfold handle_live, turn_off_periodic_check. intros ->.
  destruct (task_done w t); [discriminate | reflexivity].
Qed.

Lemma handle_live_false_no_active w :
  handle_inv w -> handle_live w = false -> forall t, ~ active w t.
Proof.
  intros Hinv Hlive t Ht.
  assert (handle_live w = true) by (apply handle_live_active; [assumption | now exists t]).
  congruence.
Qed.

Lemma handle_inv_turn_on E w :
  handle_inv w -> handle_inv (snd (turn_on_periodic_check E w)).
Proof.
  intros Hinv. destruct (handle_live w) eqn:Hlive.
  - rewrite turn_on_when_live by assumption. exact Hinv.
  - rewrite turn_on_when_not_live by assumption.
    pose proof (handle_live_false_no_active w Hinv Hlive) as Hnone.
    split; cbn.
    + intros t (k & Hk & Hstate). cbn in Hk.
      apply lookup_snoc_Some in Hk as [[Hlt Hk] | [-> _]]; [| reflexivity].
      exfalso. apply (Hnone t). now exists k.
    + intros t [= <-]. eexists. split; [apply list_lookup_middle; reflexivity |].
      discriminate.
Qed.

Lemma handle_inv_turn_off E w :
  handle_inv w -> handle_inv (snd (turn_off_periodic_check E w)).
Proof.
  intros Hinv. destruct (handle_live w) eqn:Hlive.
  - destruct (periodic_check_task w) as [t |] eqn:Hh;
      [| unfold handle_live in Hlive; rewrite Hh in Hlive; discriminate].
    rewrite (turn_off_when_live E w t Hh Hlive).
    destruct Hinv as [Hact Hhandle]. destruct (Hhandle t Hh) as (k & Hk & Hstate).
    split; cbn; [| discriminate].
    intros t' (k' & Hk' & Hstate'). cbn in Hk'. exfalso.
    destruct (decide (t = t')) as [<- | Hne].
    + rewrite list_lookup_alter_eq, Hk in Hk'. cbn in Hk'. inversion Hk'; subst k'.
      unfold request_cancel in Hstate'. destruct k as [i []]; cbn in *; congruence.
    + rewrite list_lookup_alter_ne in Hk' by assumption.
      assert (periodic_check_task w = Some t') by (apply Hact; now exists k').
      congruence.
  - rewrite turn_off_when_not_live by assumption. exact Hinv.
Qed.

Lemma handle_inv_step E w w' : sched_step E w w' -> handle_inv w -> handle_inv w'.
Proof.
  intros Hstep Hinv. destruct Hstep as [w | w | w t k Hk | w evs].
  - now apply handle_inv_turn_on.
  - now apply handle_inv_turn_off.
  - destruct Hinv as [Hact Hhandle]. split; cbn.
    + intros t' (k' & Hk' & Hstate'). cbn in Hk'. apply Hact.
      destruct (decide (t = t')) as [<- | Hne].
      * rewrite list_lookup_insert_eq in Hk' by (eapply lookup_lt_Some; eauto).
        inversion Hk'; subst k'. discriminate.
      * rewrite list_lookup_insert_ne in Hk' by assumption. now exists k'.
    + intros t' Hh. destruct (Hhandle t' Hh) as (k' & Hk' & Hstate').
      destruct (decide (t = t')) as [<- | Hne].
      * exists (finished k). split; [| discriminate].
        apply list_lookup_insert_eq. eapply lookup_lt_Some; eauto.
      * exists k'. split; [| assumption]. now rewrite list_lookup_insert_ne.
  - exact Hinv.
Qed.

Lemma handle_inv_reachable E w : reachable E w -> handle_inv w.
Proof.
  unfold reachable. revert w. apply rtc_ind_r.
  - split.
    + intros t (k & Hk & _). cbn in Hk. now rewrite lookup_nil in Hk.
    + discriminate.
  - intros w w' _ Hstep IH. eapply handle_inv_step; eauto.
Qed.

Lemma telegram_calls_after E c w :
  telegram_calls (trace (snd (telegram E c w))) = telegram_calls (trace w) ++ [c].
Proof. unfold telegram. cbn [snd]. now rewrite trace_record, telegram_calls_app. Qed.

(** C5: in every world the scheduler can reach, at most one loop is
    active; the enable command, given while one is active, leaves the
    handle and the tasks as they are and answers that the check is already
    on, and otherwise creates the loop and points the handle at it; the
    disable command, given while none is active, leaves them as they are
    and answers that the check is already off, and otherwise requests the
    cancellation of the active loop and clears the handle. *)
Theorem scheduler_handle_singleton (E : env) (w : world) :
  reachable E w ->
  (forall t1 t2, active w t1 -> active w t2 -> t1 = t2)
  /\ (some_active w ->
      let err := telegram_error E (trace w)
                   (MessageAnswer "Периодическая проверка уже включена.") in
      turn_on_periodic_check E w
      = (outcome err,
         record (EvTelegram (MessageAnswer "Периодическая проверка уже включена.") err) w))
  /\ (~ some_active w ->
      let err := telegram_error E (trace w)
                   (MessageAnswer "Периодическая проверка уже выключена.") in
      turn_off_periodic_check E w
      = (outcome err,
         record (EvTelegram (MessageAnswer "Периодическая проверка уже выключена.") err) w))
  /\ (~ some_active w ->
      let w' := snd (turn_on_periodic_check E w) in
      tasks w' = tasks w ++ [{| task_interval := 10; state := Running |}]
      /\ periodic_check_task w' = Some (List.length (tasks w))
      /\ active w' (List.length (tasks w))
      /\ telegram_calls (trace w') = telegram_calls (trace w) ++ [MessageAnswer switched_on])
  /\ (forall t, active w t ->
      let w' := snd (turn_off_periodic_check E w) in
      tasks w' = alter request_cancel t (tasks w)
      /\ periodic_check_task w' = None
      /\ ~ some_active w'
      /\ telegram_calls (trace w') = telegram_calls (trace w) ++ [MessageAnswer switched_off]).
Proof.
  intros Hreach. pose proof (handle_inv_reachable E w Hreach) as Hinv.
  pose proof (handle_live_active w Hinv) as Hlive.
  split; [| split; [| split; [| split]]].
  - destruct Hinv as [Hact _]. intros t1 t2 H1 H2.
    apply Hact in H1, H2. congruence.
  - intros Hsome. apply Hlive in Hsome. cbv zeta.
    rewrite turn_on_when_live by assumption. reflexivity.
  - intros Hnone. cbv zeta.
    rewrite turn_off_when_not_live; [reflexivity |].
    destruct (handle_live w); [| reflexivity]. exfalso. now apply Hnone, Hlive.
  - intros Hnone. cbv zeta.
    rewrite turn_on_when_not_live
      by (destruct (handle_live w); [exfalso; now apply Hnone, Hlive | reflexivity]).
    rewrite telegram_calls_after. cbn. repeat split.
    eexists. split; [apply list_lookup_middle; reflexivity | reflexivity].
  - intros t Ht. cbv zeta.
    assert (Hh : periodic_check_task w = Some t) by (now apply Hinv).
    assert (Hl : handle_live w = true) by (apply Hlive; now exists t).
    rewrite (turn_off_when_live E w t Hh Hl).
    pose proof (handle_inv_turn_off E w Hinv) as Hinv'.
    rewrite (turn_off_when_live E w t Hh Hl) in Hinv'.
    rewrite telegram_calls_after. cbn. repeat split.
    intros (t' & Ht'). destruct Hinv' as [Hact' _].
    specialize (Hact' t' Ht'). cbn in Hact'. discriminate.
Qed.

Lemma scheduler_handle_singleton_witness :
  let E := demo_env TransportFailure never_fails in
  let w1 := snd (turn_on_periodic_check E initial_world) in
  periodic_check_task w1 = Some 0
  /\ fst (turn_on_periodic_check E w1) = Ok tt
  /\ tasks (snd (turn_on_periodic_check E w1)) = tasks w1.
Proof.
  intros E w1.
  destruct (scheduler_handle_singleton E initial_world (rtc_refl _ _))
    as (_ & _ & _ & Hon & _).
  destruct Hon as (_ & Hh & _).
  { intros (t & k & Hk & _). cbn in Hk. now rewrite lookup_nil in Hk. }
  split; [exact Hh |].
  assert (Hreach : reachable E w1) by (apply rtc_once, step_turn_on).
  destruct (scheduler_handle_singleton E w1 Hreach) as (_ & Hagain & _).
  rewrite Hagain.
  - split; reflexivity.
  - exists 0. eexists. split; reflexivity.
Defined.

(** * Further properties of the code *)

(** ** CRM gateway, beyond the request *)

Lemma select_leads_raises_type_error data w e w' :
  select_leads data w = (Raise e, w') -> e = TypeError.
Proof.
  unfold select_leads, bind, lift, ret, logging_info, Py.contains, Py.getitem, Py.len,
    Py.dict_has.
  intros H. crack H; inversion H; reflexivity.
Qed.

Lemma select_leads_len data w v w' :
  select_leads data w = (Ok v, w') ->
  no_result data = false -> exists n, Py.len v = Ok n.
Proof.
  unfold no_result, select_leads, bind, lift, ret, logging_info.
  destruct (Py.contains "result" data) as [[|] | e]; try discriminate.
  destruct (Py.getitem data "result") as [r | e]; [| discriminate].
  destruct (Py.truthy r); [| discriminate].
  destruct (Py.len r) as [n | e] eqn:Hlen; [| discriminate].
  intros H _. inversion H; subst. eauto.
Qed.

(** X1: whatever the CRM answers, [get_overdue_leads] ends in one of four
    ways: it returns [None]; it returns the empty list; it returns the
    [result] member of the decoded body as it is, a truthy value that has a
    length (not necessarily a list); or it raises [TypeError], the one
    exception it lets through. *)
Theorem get_overdue_leads_four_ways (E : env) (cfg : config) (w : world) :
  let out := http_reply E (trace w) (lead_list_url cfg) (overdue_request E w) in
  let r := fst (get_overdue_leads E cfg w) in
  r = Ok PNone
  \/ r = Ok (PList [])
  \/ (exists st data v n,
        out = Response st (Some data)
        /\ Py.getitem data "result" = Ok v
        /\ Py.truthy v = true /\ Py.len v = Ok n
        /\ r = Ok v)
  \/ r = Raise TypeError.
Proof.
  cbv zeta. pose proof (get_overdue_leads_cases E cfg w) as H. cbv zeta in H.
  destruct (http_reply E _ _ _) as [| st b] eqn:Hout.
  - rewrite H. auto.
  - destruct (status_raises st) eqn:Hst; [rewrite H; auto |].
    destruct b as [data |]; [| rewrite H; auto]. clear H.
    rewrite (get_overdue_leads_decoded E cfg w st data Hout Hst).
    destruct (no_result data) eqn:Hnr.
    + rewrite select_leads_empty by assumption. auto.
    + destruct (select_leads data _) as [[v | e] w'] eqn:Hsel.
      * destruct (select_leads_value _ _ _ _ Hnr Hsel) as [Hv Hget].
        destruct (select_leads_len _ _ _ _ Hsel Hnr) as [n Hn].
        right. right. left. exists st, data, v, n. auto.
      * apply select_leads_raises_type_error in Hsel. subst. auto.
Qed.

Lemma gateway_result_value done_msg failed_msg out w1 :
  fst (gateway_result done_msg failed_msg out w1)
  = Ok match out with
       | Response st (Some data) => if status_raises st then PNone else data
       | _ => PNone
       end.
Proof.
  unfold gateway_result. destruct out as [| st [data |]]; try reflexivity;
    destruct (status_raises st); reflexivity.
Qed.

Lemma gateway_result_quiet done_msg failed_msg out w1 :
  posts (trace (snd (gateway_result done_msg failed_msg out w1))) = posts (trace w1)
  /\ telegram_calls (trace (snd (gateway_result done_msg failed_msg out w1)))
     = telegram_calls (trace w1).
Proof.
  destruct (gateway_result_trace done_msg failed_msg out w1) as (logs & Ht & Hlogs & _).
  destruct (logs_silent logs Hlogs) as (Hp & Hc & _).
  rewrite Ht, posts_app, telegram_calls_app, Hp, Hc, !app_nil_r. auto.
Qed.

(** X2: [add_comment_to_lead] never raises.  It returns the decoded body
    when the status passes and the body is JSON, and [None] in every other
    case; either way it has made exactly one request, to
    [crm.timeline.comment.add] with the lead and the text, and no chat
    call. *)
Theorem add_comment_to_lead_total (E : env) (cfg : config) (lead_id text : string)
    (w : world) :
  let url := fmt_opt (BITRIX_WEBHOOK cfg) +:+ "crm.timeline.comment.add" in
  let params :=
    PDict [ ("fields", PDict [ ("ENTITY_ID", PStr lead_id);
                               ("ENTITY_TYPE", PStr "lead");
                               ("COMMENT", PStr text) ]) ] in
  let w' := snd (add_comment_to_lead E cfg lead_id text w) in
  fst (add_comment_to_lead E cfg lead_id text w)
  = Ok match http_reply E (trace w) url params with
       | Response st (Some data) => if status_raises st then PNone else data
       | _ => PNone
       end
  /\ posts (trace w') = posts (trace w) ++ [(url, params)]
  /\ telegram_calls (trace w') = telegram_calls (trace w).
Proof.
  cbv zeta. pose proof (add_comment_to_lead_cases E cfg lead_id text w) as H.
  cbv zeta in H. rewrite H. clear H.
  split; [apply gateway_result_value |].
  match goal with
  | |- context [gateway_result ?d ?f ?o ?w1] =>
      destruct (gateway_result_quiet d f o w1) as [-> ->]
  end.
  rewrite trace_record, posts_app, telegram_calls_app. cbn.
  now rewrite app_nil_r.
Qed.

(** X3: [create_task_for_lead] never raises.  It returns the decoded body
    when the status passes and the body is JSON, and [None] in every other
    case; either way it has made exactly one request, to [tasks.task.add],
    for a task titled after the lead, assigned to user 1, linked to the
    lead as [L_<id>], with its deadline two hours after the time of the
    call; and no chat call. *)
Theorem create_task_for_lead_total (E : env) (cfg : config) (lead_id : string)
    (w : world) :
  let url := fmt_opt (BITRIX_WEBHOOK cfg) +:+ "tasks.task.add" in
  let params :=
    PDict [ ("fields",
             PDict [ ("TITLE", PStr ("Связаться с клиентом по лиду №" +:+ lead_id));
                     ("RESPONSIBLE_ID", PInt 1);
                     ("DEADLINE",
                      PStr (isoformat E (clock E (trace w) + 7200 * 1000000)));
                     ("UF_CRM_TASK", PList [PStr ("L_" +:+ lead_id)]) ]) ] in
  let w' := snd (create_task_for_lead E cfg lead_id w) in
  fst (create_task_for_lead E cfg lead_id w)
  = Ok match http_reply E (trace w) url params with
       | Response st (Some data) => if status_raises st then PNone else data
       | _ => PNone
       end
  /\ posts (trace w') = posts (trace w) ++ [(url, params)]
  /\ telegram_calls (trace w') = telegram_calls (trace w).
Proof.
  cbv zeta. pose proof (create_task_for_lead_cases E cfg lead_id w) as H.
  cbv zeta in H. rewrite H. clear H.
  split; [apply gateway_result_value |].
  match goal with
  | |- context [gateway_result ?d ?f ?o ?w1] =>
      destruct (gateway_result_quiet d f o w1) as [-> ->]
  end.
  rewrite trace_record, posts_app, telegram_calls_app. cbn.
  now rewrite app_nil_r.
Qed.

(** X4: both gateway writes log their success line before they decode the
    response.  When the status passes and the body is not JSON, the log
    says the comment was added (the task was created), then carries the
    decoding error, and the function returns [None]. *)
Theorem success_logged_before_decoding (E : env) (cfg : config)
    (lead_id text : string) (w : world) (st1 st2 : Z) :
  http_reply E (trace w) (comment_add_url cfg) (comment_params lead_id text)
  = Response st1 None ->
  http_reply E (trace w) (task_add_url cfg) (task_request E lead_id w)
  = Response st2 None ->
  status_raises st1 = false ->
  status_raises st2 = false ->
  (fst (add_comment_to_lead E cfg lead_id text w) = Ok PNone
   /\ trace (snd (add_comment_to_lead E cfg lead_id text w))
      = trace w
        ++ [ EvPost (comment_add_url cfg) (comment_params lead_id text) (Response st1 None);
             EvLog INFO ("Комментарий '" +:+ text +:+ "' добавлен к лиду ID " +:+ lead_id)
                   None;
             EvLog ERROR ("Ошибка при добавлении комментария к лиду ID " +:+ lead_id +:+ ": ")
                   (Some (RequestException JSONDecodeError)) ])
  /\ (fst (create_task_for_lead E cfg lead_id w) = Ok PNone
      /\ trace (snd (create_task_for_lead E cfg lead_id w))
         = trace w
           ++ [ EvPost (task_add_url cfg) (task_request E lead_id w) (Response st2 None);
                EvLog INFO ("Задача создана для лида ID " +:+ lead_id) None;
                EvLog ERROR ("Ошибка при создании задачи для лида ID " +:+ lead_id +:+ ": ")
                      (Some (RequestException JSONDecodeError)) ]).
Proof.
  intros Hc Ht Hs1 Hs2. split.
  - pose proof (add_comment_to_lead_cases E cfg lead_id text w) as H.
    cbv zeta in H. rewrite H, Hc. unfold gateway_result. rewrite Hs1.
    split; [reflexivity |]. cbn [snd]. rewrite !trace_record, <- !app_assoc. reflexivity.
  - pose proof (create_task_for_lead_cases E cfg lead_id w) as H.
    cbv zeta in H. rewrite H, Ht. unfold gateway_result. rewrite Hs2.
    split; [reflexivity |]. cbn [snd]. rewrite !trace_record, <- !app_assoc. reflexivity.
Qed.

Lemma success_logged_before_decoding_witness :
  let E := demo_env (Response 200 None) never_fails in
  fst (add_comment_to_lead E demo_cfg "42" called_comment initial_world) = Ok PNone
  /\ fst (create_task_for_lead E demo_cfg "42" initial_world) = Ok PNone.
Proof.
  intros E.
  destruct (success_logged_before_decoding E demo_cfg "42" called_comment initial_world
              200 200 eq_refl eq_refl eq_refl eq_refl) as ((Hc & _) & (Ht & _)).
  split; assumption.
Defined.

(** ** Keyboard and routing *)

Lemma split_head sep head tail :
  occurs sep head = false ->
  Py.split sep (head +:+ String sep tail) = head :: Py.split sep tail.
Proof.
  induction head as [| c head IH]; simpl; intros H.
  - now rewrite Ascii.eqb_refl.
  - apply orb_false_elim in H as [Hc Hrest]. rewrite Hc, (IH Hrest). reflexivity.
Qed.

Lemma split_whole sep s : occurs sep s = false -> Py.split sep s = [s].
Proof.
  induction s as [| c s IH]; simpl; intros H; [reflexivity |].
  apply orb_false_elim in H as [Hc Hrest]. rewrite Hc, (IH Hrest). reflexivity.
Qed.

Lemma split_after_filter a rest :
  exists name, Py.split ":" (filter_prefix a +:+ rest) = name :: Py.split ":" rest.
Proof. destruct a; eexists; reflexivity. Qed.

Lemma prefix_app p rest : String.prefix p (p +:+ rest) = true.
Proof.
  induction p as [| c p IH]; simpl.
  - now destruct rest.
  - destruct (ascii_dec c c); [exact IH | congruence].
Qed.

Lemma button_of_data E a lead_id :
  exists label,
    button_of E a lead_id
    = Some {| button_text := label;
              callback_data := filter_prefix a +:+ Py.str (repr_container E) lead_id |}.
Proof. destruct a; eexists; reflexivity. Qed.

(** X5: the keyboard of a lead is one row of three buttons, and for a lead
    whose id shows without a colon the buttons and the handlers agree: the
    tap on the button of an action is routed to the handler of that action,
    which reads back the id the keyboard was built for. *)
Theorem keyboard_round_trip (E : env) (cfg : config) (a : action) (lead_id : pyval)
    (id : Z) (text : string) :
  occurs ":" (Py.str (repr_container E) lead_id) = false ->
  exists b,
    button_of E a lead_id = Some b
    /\ dispatch_callback E cfg (tap b id text) = handler E cfg a (tap b id text)
    /\ callback_lead_id (tap b id text) = Ok (Py.str (repr_container E) lead_id).
Proof.
  intros Hcolon. destruct (button_of_data E a lead_id) as [label Hb].
  eexists. split; [exact Hb |]. split.
  - apply dispatch_callback_routes. cbn. apply prefix_app.
  - unfold callback_lead_id. cbn.
    destruct (split_after_filter a (Py.str (repr_container E) lead_id)) as [name ->].
    now rewrite split_whole.
Qed.

Lemma keyboard_round_trip_witness :
  let E := demo_env TransportFailure never_fails in
  exists b,
    button_of E Wrote (PInt 42) = Some b
    /\ callback_lead_id (tap b 1001 "lead 42") = Ok "42".
Proof.
  intros E.
  destruct (keyboard_round_trip E demo_cfg Wrote (PInt 42) 1001 "lead 42" eq_refl)
    as (b & Hb & _ & Hid).
  exists b. split; [exact Hb | exact Hid].
Defined.

(** X6: a handler takes as the lead id the text between the first and the
    second colon of the callback data.  An id that contains a colon does
    not come back whole: the handler acts on the part before that colon. *)
Theorem lead_id_cut_at_colon (a : action) (head tail : string) (id : Z) (text : string) :
  occurs ":" head = false ->
  callback_lead_id {| data := filter_prefix a +:+ head +:+ ":" +:+ tail;
                      message_id := id; message_text := text |}
  = Ok head.
Proof.
  intros Hhead. unfold callback_lead_id. cbn [data].
  destruct (split_after_filter a (head +:+ ":" +:+ tail)) as [name ->].
  change (":" +:+ tail) with (String ":" tail). now rewrite split_head.
Qed.

Lemma lead_id_cut_at_colon_witness :
  callback_lead_id {| data := "delay:2024-05-01T10:30"; message_id := 7;
                      message_text := "lead" |}
  = Ok "2024-05-01T10".
Proof. apply (lead_id_cut_at_colon Delay "2024-05-01T10" "30" 7 "lead"). reflexivity. Defined.

Lemma filter_first_char a data :
  String.prefix (filter_prefix a) data = true ->
  exists rest,
    data = String match a with
                  | Called => "c"
                  | Wrote => "w"
                  | Delay => "d"
                  end%char rest.
Proof.
  intros H. destruct (prefix_split _ _ H) as [rest ->].
  destruct a; eexists; reflexivity.
Qed.

(** X7: the three filters exclude one another, so at most one handler can
    take a query and the order of registration decides nothing; and a
    query that none of the filters takes is dropped: nothing is requested,
    sent or logged, and nothing is raised. *)
Theorem filters_exclusive (E : env) (cfg : config) (callback : CallbackQuery) (w : world) :
  (forall a b,
     String.prefix (filter_prefix a) (data callback) = true ->
     String.prefix (filter_prefix b) (data callback) = true -> a = b)
  /\ ((forall a, String.prefix (filter_prefix a) (data callback) = false) ->
      dispatch_callback E cfg callback w = (Ok tt, w)).
Proof.
  split.
  - intros a b Ha Hb.
    destruct (filter_first_char a _ Ha) as [ra Hda].
    destruct (filter_first_char b _ Hb) as [rb Hdb].
    rewrite Hda in Hdb. destruct a, b; try reflexivity; discriminate.
  - intros Hnone. unfold dispatch_callback.
    pose proof (Hnone Called) as Hc. pose proof (Hnone Wrote) as Hw.
    pose proof (Hnone Delay) as Hd. cbn [filter_prefix] in Hc, Hw, Hd.
    now rewrite Hc, Hw, Hd.
Qed.

Lemma filters_exclusive_witness :
  let E := demo_env TransportFailure always_fails in
  dispatch_callback E demo_cfg
    {| data := "snooze:42"; message_id := 1001; message_text := "lead 42" |}
    initial_world
  = (Ok tt, initial_world).
Proof.
  intros E.
  apply (filters_exclusive E demo_cfg
           {| data := "snooze:42"; message_id := 1001; message_text := "lead 42" |}
           initial_world).
  intros []; reflexivity.
Defined.

Lemma rewrite_and_acknowledge_raises E a callback lead_id w1 e w' :
  rewrite_and_acknowledge E a callback lead_id w1 = (Raise e, w') ->
  exists h c, telegram_error E h c = Some e.
Proof.
  unfold rewrite_and_acknowledge, bind, telegram.
  destruct (telegram_error E (trace w1) (rewrite_of a callback)) as [e1 |] eqn:H1; cbn.
  - intros H; inversion H; subst. eauto.
  - match goal with
    | |- context [telegram_error E ?h ?c] =>
        destruct (telegram_error E h c) as [e2 |] eqn:H2
    end; cbn; [| discriminate].
    intros H; inversion H; subst. eauto.
Qed.

(** X8: whatever the CRM does and whatever the callback data is, the only
    exceptions that leave the dispatch of a query are those a chat call
    raised: never an [IndexError] from reading the lead id, never an
    exception of the request. *)
Theorem dispatch_raises_chat_errors_only (E : env) (cfg : config)
    (callback : CallbackQuery) (w w' : world) (e : exn) :
  dispatch_callback E cfg callback w = (Raise e, w') ->
  exists h c, telegram_error E h c = Some e.
Proof.
  intros Hrun.
  assert (Hcase : (exists a, String.prefix (filter_prefix a) (data callback) = true)
                  \/ forall a, String.prefix (filter_prefix a) (data callback) = false).
  { destruct (String.prefix (filter_prefix Called) (data callback)) eqn:Hc; [eauto |].
    destruct (String.prefix (filter_prefix Wrote) (data callback)) eqn:Hw; [eauto |].
    destruct (String.prefix (filter_prefix Delay) (data callback)) eqn:Hd; [eauto |].
    right. intros []; assumption. }
  destruct Hcase as [[a Ha] | Hnone].
  - destruct (routed_has_lead_id a callback Ha) as [lead_id Hid].
    rewrite (dispatch_callback_routes E cfg a callback Ha) in Hrun.
    rewrite (handler_run E cfg a callback lead_id w Hid) in Hrun.
    eapply rewrite_and_acknowledge_raises; eauto.
  - unfold dispatch_callback in Hrun.
    pose proof (Hnone Called) as Hc. pose proof (Hnone Wrote) as Hw.
    pose proof (Hnone Delay) as Hd. cbn [filter_prefix] in Hc, Hw, Hd.
    rewrite Hc, Hw, Hd in Hrun. discriminate.
Qed.

Lemma dispatch_raises_chat_errors_only_witness :
  let E := demo_env TransportFailure always_fails in
  exists h c,
    telegram_error E h c
    = Some (TelegramAPIError "Forbidden: bot was blocked by the user").
Proof.
  intros E.
  apply (dispatch_raises_chat_errors_only E demo_cfg tap_called_42 initial_world
           (snd (dispatch_callback E demo_cfg tap_called_42 initial_world))).
  reflexivity.
Defined.

(** X9: a handler that cannot rewrite the message stops there.  The
    exception of [edit_text] leaves the handler, the tap is not
    acknowledged, and the request to the CRM has been made all the same. *)
Theorem rewrite_failure_skips_acknowledgment (E : env) (cfg : config) (a : action)
    (callback : CallbackQuery) (lead_id : string) (w : world) (e : exn) :
  callback_lead_id callback = Ok lead_id ->
  telegram_error E (trace (snd (gateway E cfg a lead_id w)))
                 (EditText (message_id callback)
                           (message_text callback +:+ label_of a) "Markdown")
  = Some e ->
  let w' := snd (handler E cfg a callback w) in
  fst (handler E cfg a callback w) = Raise e
  /\ telegram_calls (trace w')
     = telegram_calls (trace w)
       ++ [EditText (message_id callback) (message_text callback +:+ label_of a) "Markdown"]
  /\ posts (trace w') = posts (trace w) ++ [gateway_request E cfg a lead_id w].
Proof.
  intros Hid Hfail. cbv zeta.
  destruct (handler_trace E cfg a callback lead_id w Hid) as (Hposts & _).
  cbv zeta in Hposts. split; [| split; [| exact Hposts]].
  - rewrite (handler_run _ _ _ _ _ _ Hid).
    unfold rewrite_and_acknowledge, bind, telegram at 1.
    unfold rewrite_of. now rewrite Hfail.
  - rewrite (handler_run _ _ _ _ _ _ Hid).
    destruct (gateway_trace E cfg a lead_id w) as (logs & Hg & Hlogs). cbv zeta in Hg.
    destruct (logs_silent logs Hlogs) as (_ & Hlc & _).
    unfold rewrite_and_acknowledge, bind, telegram at 1.
    unfold rewrite_of. rewrite Hfail. cbn [outcome snd].
    rewrite trace_record, Hg, !telegram_calls_app. cbn.
    unfold telegram_calls in *. cbn. rewrite Hlc. cbn. now rewrite app_nil_r.
Qed.

Lemma rewrite_failure_skips_acknowledgment_witness :
  let E := demo_env (Response 200 (Some (PDict [("result", PInt 7)]))) always_fails in
  telegram_calls (trace (snd (handler E demo_cfg Called tap_called_42 initial_world)))
  = [EditText 1001 ("lead 42" +:+ called_label) "Markdown"]
  /\ posts (trace (snd (handler E demo_cfg Called tap_called_42 initial_world)))
     = [(comment_add_url demo_cfg, comment_params "42" called_comment)].
Proof.
  intros E.
  destruct (rewrite_failure_skips_acknowledgment E demo_cfg Called tap_called_42 "42"
              initial_world (TelegramAPIError "Forbidden: bot was blocked by the user")
              eq_refl eq_refl) as (_ & Hcalls & Hposts).
  split; [exact Hcalls | exact Hposts].
Defined.

(** ** The cycle, lead by lead *)

(** X10: whatever the CRM answers and whatever the chat does, one cycle
    makes exactly one request, the fetch from [crm.lead.list]; it never
    writes to the CRM and never sleeps. *)
Theorem cycle_requests_once (E : env) (cfg : config) (w : world) :
  let w' := snd (send_leads_to_manager E cfg w) in
  posts (trace w')
  = posts (trace w)
    ++ [(fmt_opt (BITRIX_WEBHOOK cfg) +:+ "crm.lead.list", overdue_request E w)]
  /\ sleeps (trace w') = sleeps (trace w).
Proof.
  cbv zeta. destruct (send_leads_to_manager_trace E cfg w) as (tail & Ht & Hq).
  destruct (quiet_tail tail Hq) as [Hp Hs].
  rewrite Ht, posts_app, sleeps_app. cbn. unfold posts, sleeps in *. cbn.
  rewrite Hp, Hs, app_nil_r. auto.
Qed.

(** X11: a lead is read in the order [ID], [TITLE], phone.  A lead that is
    not a dict raises [TypeError]; a dict without [ID] raises [KeyError]
    for ['ID'], also when [TITLE] is missing too; a dict with [ID] and
    without [TITLE] raises [KeyError] for ['TITLE'].  In each case nothing
    is sent for the lead. *)
Theorem lead_missing_key (E : env) (cfg : config) (lead : pyval) (w : world) :
  match lead with
  | PDict d =>
      match Py.dict_get "ID" d, Py.dict_get "TITLE" d with
      | None, _ => notify_lead E cfg lead w = (Raise (KeyError (PStr "ID")), w)
      | Some _, None => notify_lead E cfg lead w = (Raise (KeyError (PStr "TITLE")), w)
      | Some _, Some _ => True
      end
  | _ => notify_lead E cfg lead w = (Raise TypeError, w)
  end.
Proof.
  destruct lead as [| b | n | z s | s | l | d];
    try (apply notify_lead_unrendered; reflexivity).
  destruct (Py.dict_get "ID" d) as [lead_id |] eqn:Hid.
  - destruct (Py.dict_get "TITLE" d) as [title |] eqn:Htitle; [exact I |].
    apply notify_lead_unrendered. unfold render_lead, Py.getitem. now rewrite Hid, Htitle.
  - apply notify_lead_unrendered. unfold render_lead, Py.getitem. now rewrite Hid.
Qed.

(** X12: of the phones of a lead only the first is read.  Its [VALUE] is
    shown when it has one, the sentinel when it has none, and a first
    entry that is not a dict raises [AttributeError]; the entries after
    the first change nothing. *)
Theorem first_phone_only (d : list (string * pyval)) (first : pyval) (others : list pyval) :
  Py.dict_get "PHONE" d = Some (PList (first :: others)) ->
  lead_phone (PDict d)
  = match first with
    | PDict entry =>
        Ok match Py.dict_get "VALUE" entry with
           | Some number => number
           | None => PStr "не указан"
           end
    | _ => Raise AttributeError
    end.
Proof.
  intros H. unfold lead_phone, Py.get at 1. rewrite H. cbn [Py.getitem0].
  destruct first; try reflexivity. cbn. now destruct (Py.dict_get "VALUE" d0).
Qed.

Lemma first_phone_only_witness :
  lead_phone
    (PDict [ ("ID", PStr "43");
             ("PHONE", PList [ PDict [("VALUE_TYPE", PStr "WORK")];
                               PDict [("VALUE", PStr "+7 700 000 00 00")] ]) ])
  = Ok (PStr "не указан").
Proof.
  apply (first_phone_only
           [ ("ID", PStr "43");
             ("PHONE", PList [ PDict [("VALUE_TYPE", PStr "WORK")];
                               PDict [("VALUE", PStr "+7 700 000 00 00")] ]) ]
           (PDict [("VALUE_TYPE", PStr "WORK")])
           [PDict [("VALUE", PStr "+7 700 000 00 00")]]).
  reflexivity.
Defined.

Lemma for_each_notify_prefix E cfg leads w :
  exists sent rest,
    leads = sent ++ rest
    /\ forallb (renders E) sent = true
    /\ telegram_calls (trace (snd (for_each (notify_lead E cfg) leads w)))
       = telegram_calls (trace w) ++ omap (message_of E cfg) sent
    /\ List.length (omap (message_of E cfg) sent) = List.length sent
    /\ (fst (for_each (notify_lead E cfg) leads w) = Ok tt -> rest = []).
Proof.
  revert w. induction leads as [| lead leads IH]; intros w.
  - exists [], []. cbn. rewrite app_nil_r. auto.
  - destruct (render_lead E lead) as [rendered | e] eqn:Hrender.
    + set (c := lead_message E cfg (fst rendered) (snd rendered)).
      assert (Hm : message_of E cfg lead = Some c)
        by (unfold message_of; now rewrite Hrender).
      assert (Hr : renders E lead = true) by (unfold renders; now rewrite Hrender).
      destruct (telegram_error E (trace w) c) as [e |] eqn:Herr.
      * assert (Hrun : for_each (notify_lead E cfg) (lead :: leads) w
                       = (Raise e, record (EvTelegram c (Some e)) w)).
        { apply bind_raise. rewrite (notify_lead_rendered _ _ _ _ _ Hrender).
          unfold telegram. fold c. now rewrite Herr. }
        rewrite Hrun. exists [lead], leads. cbn [fst snd].
        rewrite trace_record, telegram_calls_app. cbn. rewrite Hm, Hr.
        repeat split. discriminate.
      * assert (Hrun : for_each (notify_lead E cfg) (lead :: leads) w
                       = for_each (notify_lead E cfg) leads
                           (record (EvTelegram c None) w)).
        { cbn [for_each]. erewrite bind_ok; [reflexivity |].
          rewrite (notify_lead_rendered _ _ _ _ _ Hrender).
          unfold telegram. fold c. now rewrite Herr. }
        rewrite Hrun.
        destruct (IH (record (EvTelegram c None) w))
          as (sent & rest & Hl & Hf & Hc & Hn & Hok).
        exists (lead :: sent), rest.
        rewrite Hc, trace_record, telegram_calls_app, <- app_assoc. cbn.
        rewrite Hm, Hr. cbn. subst leads. rewrite Hn. auto.
    + assert (Hrun : for_each (notify_lead E cfg) (lead :: leads) w = (Raise e, w)).
      { apply bind_raise. now apply notify_lead_unrendered. }
      rewrite Hrun. exists [], (lead :: leads). cbn. rewrite app_nil_r.
      repeat split. discriminate.
Qed.

(** X13: the lead messages a cycle sends are always those of an initial
    stretch of the fetched list, one message per lead and in the order of
    the list: no lead is skipped in favour of a later one, none is sent
    twice, and when the cycle returns normally the stretch is the whole
    list. *)
Theorem cycle_sends_initial_stretch (E : env) (cfg : config) (w w1 : world)
    (leads : list pyval) :
  get_overdue_leads E cfg w = (Ok (PList leads), w1) ->
  exists sent rest,
    leads = sent ++ rest
    /\ forallb (renders E) sent = true
    /\ telegram_calls (trace (snd (send_leads_to_manager E cfg w)))
       = telegram_calls (trace w) ++ omap (message_of E cfg) sent
    /\ List.length (omap (message_of E cfg) sent) = List.length sent
    /\ (fst (send_leads_to_manager E cfg w) = Ok tt -> rest = []).
Proof.
  intros Hfetch. destruct (get_overdue_leads_quiet _ _ _ _ _ Hfetch) as [Hcalls _].
  destruct leads as [| lead leads].
  - exists [], []. rewrite (send_leads_to_manager_fetched _ _ _ _ _ Hfetch).
    cbn. rewrite app_nil_r. auto.
  - rewrite (send_leads_to_manager_list _ _ _ _ _ _ Hfetch).
    destruct (for_each_notify_prefix E cfg (lead :: leads) w1)
      as (sent & rest & Hl & Hf & Hc & Hn & Hok).
    exists sent, rest. rewrite Hc, Hcalls. auto.
Qed.

Lemma cycle_sends_initial_stretch_witness :
  let E := demo_env (found [lead_42; lead_no_phones; lead_43]) never_fails in
  exists sent rest,
    [lead_42; lead_no_phones; lead_43] = sent ++ rest
    /\ telegram_calls (trace (snd (send_leads_to_manager E demo_cfg initial_world)))
       = omap (message_of E demo_cfg) sent.
Proof.
  intros E.
  destruct (cycle_sends_initial_stretch E demo_cfg initial_world
              (snd (get_overdue_leads E demo_cfg initial_world))
              [lead_42; lead_no_phones; lead_43] eq_refl)
    as (sent & rest & Hl & _ & Hc & _).
  exists sent, rest. split; [exact Hl | exact Hc].
Defined.

Lemma select_leads_found data v n w :
  Py.getitem data "result" = Ok v ->
  Py.truthy v = true ->
  Py.len v = Ok n ->
  select_leads data w
  = (Ok v, record (EvLog INFO ("Найдено " +:+ pretty n +:+ " просроченных лидов.") None) w).
Proof.
  intros Hget Htruthy Hlen.
  assert (Hin : Py.contains "result" data = Ok true).
  { destruct data; try discriminate. cbn in *. unfold Py.dict_has.
    now destruct (Py.dict_get "result" d). }
  unfold select_leads, bind, lift, ret, logging_info.
  now rewrite Hin, Hget, Htruthy, Hlen.
Qed.

Lemma keys_or_chars_raise E cfg v w :
  Py.truthy v = true ->
  match v with
  | PDict _ | PStr _ =>
      (let* items := lift (Py.iter v) in for_each (notify_lead E cfg) items) w
      = (Raise TypeError, w)
  | _ => True
  end.
Proof.
  intros Htruthy. destruct v as [| b | n | z s | s | l | d]; try exact I;
    unfold bind, lift; cbn [Py.iter].
  - destruct s as [| c s]; [discriminate |]. cbn [Py.str_chars].
    destruct (Py.str_chars s) as [| h t]; [reflexivity |].
    destruct (Py.starts_with_continuation s); reflexivity.
  - destruct d as [| [k x] d]; [discriminate | reflexivity].
Qed.

(** X14: the fetched value is not checked to be a list.  When the CRM
    answers with a passing status and a body whose [result] is a non-empty
    object or a non-empty string, [get_overdue_leads] logs its length and
    returns it as the leads; the loop of the cycle then runs over its keys
    or its characters, each of them a [str], and the cycle raises
    [TypeError] at the first one without any chat call. *)
Theorem result_not_a_list_raises (E : env) (cfg : config) (w : world) (st : Z)
    (data v : pyval) :
  http_reply E (trace w) (lead_list_url cfg) (overdue_request E w)
  = Response st (Some data) ->
  status_raises st = false ->
  Py.getitem data "result" = Ok v ->
  Py.truthy v = true ->
  match v with
  | PDict _ | PStr _ =>
      exists n,
        let w1 :=
          record (EvLog INFO ("Найдено " +:+ pretty n +:+ " просроченных лидов.") None)
                 (record (EvPost (lead_list_url cfg) (overdue_request E w)
                                 (Response st (Some data))) w) in
        Py.len v = Ok n
        /\ get_overdue_leads E cfg w = (Ok v, w1)
        /\ send_leads_to_manager E cfg w = (Raise TypeError, w1)
        /\ telegram_calls (trace w1) = telegram_calls (trace w)
  | _ => True
  end.
Proof.
  intros Hout Hst Hget Htruthy.
  assert (Hmain : forall n,
             Py.len v = Ok n ->
             (let* items := lift (Py.iter v) in for_each (notify_lead E cfg) items)
               (record (EvLog INFO ("Найдено " +:+ pretty n +:+ " просроченных лидов.") None)
                       (record (EvPost (lead_list_url cfg) (overdue_request E w)
                                       (Response st (Some data))) w))
             = (Raise TypeError,
                record (EvLog INFO ("Найдено " +:+ pretty n +:+ " просроченных лидов.") None)
                       (record (EvPost (lead_list_url cfg) (overdue_request E w)
                                       (Response st (Some data))) w)) ->
             exists n,
               Py.len v = Ok n
               /\ get_overdue_leads E cfg w
                  = (Ok v,
                     record (EvLog INFO ("Найдено " +:+ pretty n +:+ " просроченных лидов.")
                                   None)
                            (record (EvPost (lead_list_url cfg) (overdue_request E w)
                                            (Response st (Some data))) w))
               /\ send_leads_to_manager E cfg w
                  = (Raise TypeError,
                     record (EvLog INFO ("Найдено " +:+ pretty n +:+ " просроченных лидов.")
                                   None)
                            (record (EvPost (lead_list_url cfg) (overdue_request E w)
                                            (Response st (Some data))) w))
               /\ telegram_calls
                    (trace (record (EvLog INFO ("Найдено " +:+ pretty n
                                                +:+ " просроченных лидов.") None)
                                   (record (EvPost (lead_list_url cfg) (overdue_request E w)
                                                   (Response st (Some data))) w)))
                  = telegram_calls (trace w)).
  { intros n Hlen Hloop.
    assert (Hfetch : get_overdue_leads E cfg w
                     = (Ok v,
                        record (EvLog INFO ("Найдено " +:+ pretty n
                                            +:+ " просроченных лидов.") None)
                               (record (EvPost (lead_list_url cfg) (overdue_request E w)
                                               (Response st (Some data))) w))).
    { rewrite (get_overdue_leads_decoded E cfg w st data Hout Hst).
      now apply select_leads_found. }
    exists n. split; [exact Hlen |]. split; [exact Hfetch |]. split.
    - rewrite (send_leads_to_manager_fetched _ _ _ _ _ Hfetch), Htruthy. cbn [negb].
      destruct v; try exact Hloop; discriminate.
    - rewrite !trace_record, !telegram_calls_app. cbn. now rewrite !app_nil_r. }
  pose proof (fun w0 => keys_or_chars_raise E cfg v w0 Htruthy) as Hloop.
  destruct v as [| b | n | z s | s | l | d]; try exact I.
  - apply (Hmain (Z.of_nat (List.length (Py.str_chars s))) eq_refl). apply Hloop.
  - apply (Hmain (Z.of_nat (List.length (Py.dict_keys d))) eq_refl). apply Hloop.
Qed.

Lemma result_not_a_list_raises_witness :
  let E := demo_env (Response 200 (Some (PDict [("result", PDict [("42", lead_42)])])))
                    never_fails in
  fst (get_overdue_leads E demo_cfg initial_world) = Ok (PDict [("42", lead_42)])
  /\ fst (send_leads_to_manager E demo_cfg initial_world) = Raise TypeError.
Proof.
  intros E.
  destruct (result_not_a_list_raises E demo_cfg initial_world 200
              (PDict [("result", PDict [("42", lead_42)])]) (PDict [("42", lead_42)])
              eq_refl eq_refl eq_refl eq_refl) as (n & _ & Hfetch & Hcycle & _).
  rewrite Hfetch, Hcycle. split; reflexivity.
Defined.

(** ** Manual check *)

(** X15: the manual check answers first and runs the cycle second, with no
    handler around either.  When the answer fails, the command ends with
    that exception and the CRM is not asked; when it goes through, exactly
    one fetch is made, and what the cycle returns or raises is what the
    command returns or raises. *)
Theorem manual_check_answers_first (E : env) (cfg : config) (w : world) :
  let err := telegram_error E (trace w) (MessageAnswer "Начинаю проверку лидов...") in
  let w0 := record (EvTelegram (MessageAnswer "Начинаю проверку лидов...") err) w in
  let w' := snd (manual_check E cfg w) in
  match err with
  | Some e =>
      manual_check E cfg w = (Raise e, w0) /\ posts (trace w') = posts (trace w)
  | None =>
      manual_check E cfg w = send_leads_to_manager E cfg w0
      /\ posts (trace w') = posts (trace w) ++ [(lead_list_url cfg, overdue_request E w0)]
  end.
Proof.
  cbv zeta.
  assert (Hquiet : forall err,
             posts (trace (record (EvTelegram (MessageAnswer "Начинаю проверку лидов...")
                                              err) w))
             = posts (trace w)).
  { intros err. rewrite trace_record, posts_app. cbn. apply app_nil_r. }
  destruct (telegram_error E (trace w) _) as [e |] eqn:Herr.
  - assert (Hrun : manual_check E cfg w
                   = (Raise e,
                      record (EvTelegram (MessageAnswer "Начинаю проверку лидов...")
                                         (Some e)) w)).
    { apply bind_raise. unfold telegram. now rewrite Herr. }
    rewrite Hrun. split; [reflexivity |]. apply Hquiet.
  - assert (Hrun : manual_check E cfg w
                   = send_leads_to_manager E cfg
                       (record (EvTelegram (MessageAnswer "Начинаю проверку лидов...")
                                           None) w)).
    { unfold manual_check. erewrite bind_ok; [reflexivity |].
      unfold telegram. now rewrite Herr. }
    rewrite Hrun. split; [reflexivity |].
    destruct (send_leads_to_manager_trace E cfg
                (record (EvTelegram (MessageAnswer "Начинаю проверку лидов...") None) w))
      as (tail & Ht & Hq).
    destruct (quiet_tail tail Hq) as [Hp _].
    rewrite Ht, posts_app, Hquiet. cbn. unfold posts in *. cbn.
    now rewrite Hp.
Qed.

(** ** The loop and cancellation *)

(** X16: the loop catches [Exception] and nothing wider.  When the cycle
    ends with something that is not an [Exception], such as the
    [CancelledError] of a cancelled task, the loop ends with it at once:
    no line is logged and no sleep is taken. *)
Theorem loop_passes_cancellation_on (E : env) (cfg : config) (interval : Z)
    (rounds : nat) (w w1 : world) (e : exn) :
  send_leads_to_manager E cfg w = (Raise e, w1) ->
  is_Exception e = false ->
  periodic_check E cfg interval (S rounds) w = (Raise e, w1).
Proof.
  intros Hcycle Hexn. cbn [periodic_check].
  apply bind_raise. unfold try_except. now rewrite Hcycle, Hexn.
Qed.

Lemma loop_passes_cancellation_on_witness :
  let E := demo_env (found [lead_42; lead_43]) cancel_second_call in
  fst (periodic_check E demo_cfg 10 4 initial_world) = Raise CancelledError
  /\ sleeps (trace (snd (periodic_check E demo_cfg 10 4 initial_world))) = [].
Proof.
  intros E.
  rewrite (loop_passes_cancellation_on E demo_cfg 10 3 initial_world
             (snd (send_leads_to_manager E demo_cfg initial_world))
             CancelledError eq_refl eq_refl).
  split; reflexivity.
Defined.

(** X17: the sleep is outside the [try].  When the cycle returned or
    raised an [Exception], and the sleep that follows is interrupted, the
    loop ends with what interrupted it, after the work of that round and
    without another cycle. *)
Theorem interrupted_sleep_ends_loop (E : env) (cfg : config) (interval : Z)
    (rounds : nat) (w : world) (e : exn) :
  match fst (send_leads_to_manager E cfg w) with
  | Ok _ => True
  | Raise e0 => is_Exception e0 = true
  end ->
  sleep_error E (trace (before_sleep E cfg w)) interval = Some e ->
  periodic_check E cfg interval (S rounds) w
  = (Raise e, record (EvSleep interval (Some e)) (before_sleep E cfg w)).
Proof.
  intros Hcycle Hsleep. unfold before_sleep in *. cbn [periodic_check].
  unfold bind at 1, try_except.
  destruct (send_leads_to_manager E cfg w) as [[[] | e0] w1]; cbn [fst snd] in *.
  - apply bind_raise. unfold asyncio_sleep. now rewrite Hsleep.
  - rewrite Hcycle. unfold logging_error. apply bind_raise.
    unfold asyncio_sleep. cbn [fst snd]. unfold cycle_failed in Hsleep. now rewrite Hsleep.
Qed.

Lemma interrupted_sleep_ends_loop_witness :
  let E := {| http_reply := fun _ _ _ => found [];
              telegram_error := never_fails;
              sleep_error := fun _ _ => Some CancelledError;
              clock := fun _ => 0%Z;
              isoformat := fun t => pretty t;
              repr_container := fun _ => "[...]" |} in
  fst (periodic_check E demo_cfg 10 4 initial_world) = Raise CancelledError
  /\ List.length (posts (trace (snd (periodic_check E demo_cfg 10 4 initial_world)))) = 1.
Proof.
  intros E.
  rewrite (interrupted_sleep_ends_loop E demo_cfg 10 3 initial_world CancelledError
             I eq_refl).
  split; reflexivity.
Defined.

(** ** The two commands, repeated *)

Lemma handle_live_record ev w : handle_live (record ev w) = handle_live w.
Proof. reflexivity. Qed.

Lemma handle_live_after_turn_on E w :
  handle_live (snd (turn_on_periodic_check E w)) = true.
Proof.
  destruct (handle_live w) eqn:Hlive.
  - rewrite turn_on_when_live by assumption. exact Hlive.
  - rewrite turn_on_when_not_live by assumption.
    unfold telegram. cbn [snd]. rewrite handle_live_record.
    unfold handle_live, task_done. cbn.
    now rewrite list_lookup_middle.
Qed.

Lemma handle_live_after_turn_off E w :
  handle_live (snd (turn_off_periodic_check E w)) = false.
Proof.
  destruct (handle_live w) eqn:Hlive.
  - destruct (periodic_check_task w) as [t |] eqn:Hh;
      [| unfold handle_live in Hlive; rewrite Hh in Hlive; discriminate].
    rewrite (turn_off_when_live E w t Hh Hlive). reflexivity.
  - rewrite turn_off_when_not_live by assumption. exact Hlive.
Qed.

(** X18: both commands are idempotent in every world the scheduler can
    reach.  After the enable command a loop is active, and a second enable
    creates nothing, leaves the handle alone and answers that the check is
    already on; after the disable command no loop is active, and a second
    disable changes nothing and answers that it is already off. *)
Theorem commands_idempotent (E : env) (w : world) :
  reachable E w ->
  (let w1 := snd (turn_on_periodic_check E w) in
   let w2 := snd (turn_on_periodic_check E w1) in
   some_active w1
   /\ tasks w2 = tasks w1
   /\ periodic_check_task w2 = periodic_check_task w1
   /\ telegram_calls (trace w2)
      = telegram_calls (trace w1)
        ++ [MessageAnswer "Периодическая проверка уже включена."])
  /\ (let w1 := snd (turn_off_periodic_check E w) in
      let w2 := snd (turn_off_periodic_check E w1) in
      ~ some_active w1
      /\ tasks w2 = tasks w1
      /\ periodic_check_task w2 = periodic_check_task w1
      /\ telegram_calls (trace w2)
         = telegram_calls (trace w1)
           ++ [MessageAnswer "Периодическая проверка уже выключена."]).
Proof.
  intros Hreach. cbv zeta. split.
  - assert (Hinv : handle_inv (snd (turn_on_periodic_check E w)))
      by (apply handle_inv_turn_on, (handle_inv_reachable E); assumption).
    pose proof (handle_live_after_turn_on E w) as Hlive.
    split; [now apply handle_live_active |].
    rewrite (turn_on_when_live E _ Hlive), telegram_calls_after. auto.
  - assert (Hinv : handle_inv (snd (turn_off_periodic_check E w)))
      by (apply handle_inv_turn_off, (handle_inv_reachable E); assumption).
    pose proof (handle_live_after_turn_off E w) as Hlive.
    split.
    + intros Hsome. apply handle_live_active in Hsome; [congruence | assumption].
    + rewrite (turn_off_when_not_live E _ Hlive), telegram_calls_after. auto.
Qed.

Lemma commands_idempotent_witness :
  let E := demo_env TransportFailure never_fails in
  let w1 := snd (turn_on_periodic_check E initial_world) in
  tasks (snd (turn_on_periodic_check E w1)) = [{| task_interval := 10; state := Running |}].
Proof.
  intros E w1. subst w1.
  destruct (commands_idempotent E initial_world (rtc_refl _ _)) as ((_ & Htasks & _) & _).
  cbv zeta in Htasks. rewrite Htasks. reflexivity.
Defined.

(** ** Who writes the handle *)

Lemma emits_any {A} Q (m : M A) : emits_only Q m -> emits_only any_event m.
Proof. apply emits_only_weaken. intros ev _. exact I. Qed.

Lemma emits_only_keeps_handle {A} Q (m : M A) : emits_only Q m -> keeps_handle m.
Proof. intros Hm w. destruct (Hm w) as (d & _ & _ & Hh & Ht). auto. Qed.

Lemma emits_any_get_overdue_leads E cfg : emits_only any_event (get_overdue_leads E cfg).
Proof.
  intros w. destruct (get_overdue_leads_trace E cfg w) as (logs & Ht & _ & Hh & Hk).
  eexists. split; [exact Ht |]. repeat split; try assumption.
  apply Forall_forall. intros ev _. exact I.
Qed.

Lemma emits_any_send_leads_to_manager E cfg :
  emits_only any_event (send_leads_to_manager E cfg).
Proof.
  unfold send_leads_to_manager.
  apply emits_only_bind; [apply emits_any_get_overdue_leads |]. intros v.
  apply (emits_any is_log_or_telegram).
  assert (Hgen : emits_only is_log_or_telegram
                   (if negb (Py.truthy v) then ret tt
                    else let* items := lift (Py.iter v)
                         in for_each (notify_lead E cfg) items)).
  { destruct (negb _); [auto with bot |].
    apply emits_only_bind; [auto with bot |]. intros items.
    apply emits_only_for_each. apply emits_only_notify_lead. }
  destruct v; try exact Hgen. apply emits_only_telegram.
Qed.

Lemma emits_any_gateway_result done_msg failed_msg url params out :
  emits_only any_event
    (fun w => gateway_result done_msg failed_msg out (record (EvPost url params out) w)).
Proof.
  intros w.
  destruct (gateway_result_trace done_msg failed_msg out (record (EvPost url params out) w))
    as (logs & Ht & _ & Hh & Hk).
  exists (EvPost url params out :: logs). cbn [snd].
  rewrite Ht, Hh, Hk, trace_record, <- app_assoc.
  repeat split. apply Forall_forall. intros ev _. exact I.
Qed.

Lemma emits_any_gateway E cfg a lead_id : emits_only any_event (gateway E cfg a lead_id).
Proof.
  intros w. destruct (gateway_cases E cfg a lead_id w) as (dm & fm & Hg). cbv zeta in Hg.
  rewrite Hg. apply (emits_any_gateway_result dm fm _ _ _ w).
Qed.

Lemma emits_any_handler E cfg a callback : emits_only any_event (handler E cfg a callback).
Proof.
  assert (Htail : forall lead_id ack,
             emits_only any_event
               (let* _ := gateway E cfg a lead_id
                in do telegram E (rewrite_of a callback) then telegram E ack)).
  { intros lead_id ack. apply emits_only_bind; [apply emits_any_gateway |]. intros _.
    apply emits_only_bind; [| intros _]; apply (emits_any _ _ (emits_only_telegram E _)). }
  destruct a; cbn [handler];
    unfold process_callback_called, process_callback_wrote, process_callback_delay;
    (apply emits_only_bind; [auto with bot |]); intros lead_id;
    [ apply (Htail lead_id (acknowledgment Called lead_id))
    | apply (Htail lead_id (acknowledgment Wrote lead_id))
    | apply (Htail lead_id (acknowledgment Delay lead_id)) ].
Qed.

Lemma emits_any_dispatch_callback E cfg callback :
  emits_only any_event (dispatch_callback E cfg callback).
Proof.
  unfold dispatch_callback.
  destruct (String.prefix "called:" _); [apply (emits_any_handler E cfg Called) |].
  destruct (String.prefix "wrote:" _); [apply (emits_any_handler E cfg Wrote) |].
  destruct (String.prefix "delay:" _); [apply (emits_any_handler E cfg Delay) |].
  auto with bot.
Qed.

Lemma emits_any_asyncio_sleep E seconds : emits_only any_event (asyncio_sleep E seconds).
Proof.
  intros w. exists [EvSleep seconds (sleep_error E (trace w) seconds)].
  repeat split. repeat constructor.
Qed.

Lemma emits_any_periodic_check E cfg interval rounds :
  emits_only any_event (periodic_check E cfg interval rounds).
Proof.
  induction rounds as [| rounds IH]; cbn [periodic_check]; [auto with bot |].
  apply emits_only_bind.
  - apply emits_only_try; [apply emits_any_send_leads_to_manager |].
    intros e. apply (emits_any _ _ (emits_only_logging_error _ e)).
  - intros _. apply emits_only_bind; [apply emits_any_asyncio_sleep | intros _; exact IH].
Qed.

(** X19: only the two scheduler commands write the handle.  A cycle, a
    manual check, the dispatch of any callback query, any number of rounds
    of the loop and the welcome leave [periodic_check_task] and the tasks
    exactly as they found them. *)
Theorem handle_written_by_commands_only (E : env) (cfg : config) :
  keeps_handle (send_leads_to_manager E cfg)
  /\ keeps_handle (manual_check E cfg)
  /\ (forall callback, keeps_handle (dispatch_callback E cfg callback))
  /\ (forall interval rounds, keeps_handle (periodic_check E cfg interval rounds))
  /\ keeps_handle (send_welcome E).
Proof.
  split; [| split; [| split; [| split]]].
  - apply (emits_only_keeps_handle any_event), emits_any_send_leads_to_manager.
  - apply (emits_only_keeps_handle any_event). unfold manual_check.
    apply emits_only_bind; [apply (emits_any _ _ (emits_only_telegram E _)) |].
    intros _. apply emits_any_send_leads_to_manager.
  - intros callback.
    apply (emits_only_keeps_handle any_event), emits_any_dispatch_callback.
  - intros interval rounds.
    apply (emits_only_keeps_handle any_event), emits_any_periodic_check.
  - apply (emits_only_keeps_handle is_log_or_telegram), emits_only_telegram.
Qed.

(** ** Tasks are never revived *)

Lemma turn_on_tasks E w :
  tasks (snd (turn_on_periodic_check E w)) = tasks w
  \/ tasks (snd (turn_on_periodic_check E w))
     = tasks w ++ [{| task_interval := 10; state := Running |}].
Proof.
  destruct (handle_live w) eqn:Hlive.
  - left. now rewrite turn_on_when_live.
  - right. now rewrite turn_on_when_not_live.
Qed.

Lemma turn_off_tasks E w :
  tasks (snd (turn_off_periodic_check E w)) = tasks w
  \/ exists t, tasks (snd (turn_off_periodic_check E w)) = alter request_cancel t (tasks w).
Proof.
  destruct (handle_live w) eqn:Hlive.
  - destruct (periodic_check_task w) as [t |] eqn:Hh;
      [| unfold handle_live in Hlive; rewrite Hh in Hlive; discriminate].
    right. exists t. now rewrite (turn_off_when_live E w t Hh Hlive).
  - left. now rewrite turn_off_when_not_live.
Qed.

Lemma stopped_stays_stopped_step E w w' t k :
  sched_step E w w' ->
  tasks w !! t = Some k -> state k <> Running ->
  exists k', tasks w' !! t = Some k' /\ state k' <> Running.
Proof.
  intros Hstep Hk Hstate. destruct Hstep as [w | w | w t0 k0 Hk0 | w evs].
  - destruct (turn_on_tasks E w) as [-> | ->]; [eauto |].
    exists k. split; [now apply lookup_app_l_Some | assumption].
  - destruct (turn_off_tasks E w) as [-> | [t0 ->]]; [eauto |].
    destruct (decide (t0 = t)) as [-> | Hne].
    + exists k. rewrite list_lookup_alter_eq, Hk. cbn. split; [| assumption].
      unfold request_cancel. destruct k as [i []]; cbn in *; congruence.
    + exists k. now rewrite list_lookup_alter_ne.
  - cbn. destruct (decide (t0 = t)) as [-> | Hne].
    + exists (finished k0). split; [| discriminate].
      apply list_lookup_insert_eq. eapply lookup_lt_Some; eauto.
    + exists k. now rewrite list_lookup_insert_ne.
  - eauto.
Qed.

(** X20: a loop that was asked to cancel, or that has ended, is never
    made active again, whatever commands follow: each effective enable
    creates a new task instead of reviving an old one, and the table of
    tasks only grows. *)
Theorem stopped_loop_stays_stopped (E : env) (w w' : world) (t : nat) (k : task) :
  rtc (sched_step E) w w' ->
  tasks w !! t = Some k ->
  state k <> Running ->
  (exists k', tasks w' !! t = Some k' /\ state k' <> Running)
  /\ List.length (tasks w) <= List.length (tasks w').
Proof.
  intros Hsteps. revert k. induction Hsteps as [w | w w1 w' Hstep _ IH]; intros k Hk Hstate.
  - split; [eauto | lia].
  - destruct (stopped_stays_stopped_step E w w1 t k Hstep Hk Hstate) as (k1 & Hk1 & Hs1).
    destruct (IH k1 Hk1 Hs1) as [Hstop Hlen]. split; [exact Hstop |].
    etransitivity; [| exact Hlen].
    destruct Hstep as [w | w | w t0 k0 Hk0 | w evs].
    + destruct (turn_on_tasks E w) as [-> | ->]; [lia |]. rewrite length_app. lia.
    + destruct (turn_off_tasks E w) as [-> | [t0 ->]]; [lia |]. now rewrite length_alter.
    + cbn. now rewrite length_insert.
    + cbn. lia.
Qed.

Lemma stopped_loop_stays_stopped_witness :
  let E := demo_env TransportFailure never_fails in
  let w := snd (turn_off_periodic_check E (snd (turn_on_periodic_check E initial_world))) in
  let w' := snd (turn_on_periodic_check E w) in
  (exists k', tasks w' !! 0 = Some k' /\ state k' <> Running)
  /\ List.length (tasks w') = 2.
Proof.
  intros E w w'.
  destruct (stopped_loop_stays_stopped E w w' 0
              {| task_interval := 10; state := Cancelling |}
              (rtc_once _ _ (step_turn_on E w)) eq_refl ltac:(discriminate))
    as [Hstop _].
  split; [exact Hstop | reflexivity].
Defined.
